(** * ISAM2TrajOptimizer: the incremental graph-delta manager of gpmp2

    Shallow embedding of [gpmp2/planner/ISAM2TrajOptimizer-inl.h].  The
    optimizer object becomes a record, every member function a pure function
    from the object before the call to the object after it.  The factor
    classes named by the template parameters ([GP], [OBS_FACTOR],
    [OBS_FACTOR_GP]) and gtsam's [PriorFactor] become the constructors of one
    inductive type of factors; the remaining template parameters and gtsam
    types are collected in the class [Domain]; the gtsam::ISAM2 engine is the
    class [Solver].  A call of the engine is taken to return: an exception
    raised inside gtsam leaves the member function before its remaining
    statements and is outside this model. *)

From stdpp Require Import base numbers list strings gmap.
From Stdlib Require Import NArith ZArith Lia Ascii.

Local Open Scope N_scope.

(** ** size_t arithmetic *)

Module SizeT.

Definition modulus : N := 2 ^ 64.

(** [a + b] on size_t. *)
Definition add (a b : N) : N := (a + b) mod modulus.

(** [a - b] on size_t: the difference wraps around below zero. *)
Definition sub (a b : N) : N :=
  Z.to_N ((Z.of_N a - Z.of_N b) mod Z.of_N modulus).

(** [v.size()] of a vector-like container held as a list. *)
Definition size {A : Type} (v : list A) : N := N.of_nat (length v).

(** The values [lo, lo+1, ..., lo+n-1] taken by a loop counter. *)
Definition range (lo : N) (n : nat) : list N :=
  (fun k => lo + N.of_nat k) <$> seq 0 n.

End SizeT.

Arguments SizeT.add : simpl never.
Arguments SizeT.sub : simpl never.
Arguments SizeT.size : simpl never.
Arguments SizeT.range : simpl never.

(** ** Keys *)

(** [gtsam::Symbol(c, j)] used as a [gtsam::Key]: a character and an index.
    How gtsam packs the two into one 64-bit word plays no part here. *)
Record Key : Type := Symbol { chr : ascii; index : N }.

#[global] Instance Key_eq_dec : EqDecision Key.
Proof. solve_decision. Defined.

#[global] Instance Key_countable : Countable Key.
Proof.
  refine (inj_countable' (fun k => (chr k, index k))
                         (fun p => Symbol (fst p) (snd p)) _).
  intros [c j]; reflexivity.
Defined.

(** ** The types the optimizer is generic in *)

(** The template parameters [ROBOT] and [SDF], the robot's [Pose] and
    [Velocity], gtsam's noise models and values, and C++ [double] with the
    three operations the source applies to it. *)
Class Domain : Type := {
  Pose : Type;
  Velocity : Type;
  ROBOT : Type;
  SDF : Type;
  SharedNoiseModel : Type;
  Value : Type;
  double : Type;
  double_of_size_t : N -> double;          (* static_cast<double>(n) *)
  double_div : double -> double -> double;
  double_mul : double -> double -> double;
}.

Section Planner.

Context {D : Domain}.

(** Modelled from the spec: the struct [TrajOptimizerSetting] is declared
    outside the source file; these are the fields the source reads, as
    the configuration surface of the spec lists them.  [total_step] and
    [obs_check_inter] are size_t. *)
Record TrajOptimizerSetting : Type := {
  total_step : N;
  total_time : double;
  obs_check_inter : N;
  conf_prior_model : SharedNoiseModel;
  vel_prior_model : SharedNoiseModel;
  Qc_model : SharedNoiseModel;
  cost_sigma : double;
  epsilon : double;
}.

(** The factors the source constructs, with the arguments it passes. *)
Inductive Factor : Type :=
| PriorFactorPose (key : Key) (prior : Pose) (model : SharedNoiseModel)
| PriorFactorVelocity (key : Key) (prior : Velocity) (model : SharedNoiseModel)
| OBS_FACTOR (pose_key : Key) (arm : ROBOT) (sdf : SDF) (sigma eps : double)
| OBS_FACTOR_GP (pose1 vel1 pose2 vel2 : Key) (arm : ROBOT) (sdf : SDF)
    (sigma eps : double) (Qc : SharedNoiseModel) (delta_t tau : double)
| GP (pose1 vel1 pose2 vel2 : Key) (delta_t : double) (Qc : SharedNoiseModel).

(** [gtsam::NonlinearFactorGraph], [gtsam::Values], [gtsam::FactorIndices]. *)
Abbreviation NonlinearFactorGraph := (list Factor).
Abbreviation Values := (gmap Key Value).
Abbreviation FactorIndices := (list N).

(** ** The solver boundary *)

(** What the source uses of gtsam::ISAM2: construction, [update],
    [calculateEstimate] and [getFactorsUnsafe().size()]. *)
Class Solver : Type := {
  ISAM2 : Type;
  isam_new : ISAM2;
  isam_update : ISAM2 -> NonlinearFactorGraph -> Values -> FactorIndices -> ISAM2;
  isam_calculateEstimate : ISAM2 -> Values;
  isam_factors_size : ISAM2 -> N;
}.

(** A solver whose store only grows: a fresh engine holds no factor and an
    update appends the submitted factors, whatever it removes. *)
Class AppendOnly (S : Solver) : Prop := {
  isam_new_size : isam_factors_size isam_new = 0;
  isam_update_size : forall s g v r,
    isam_factors_size (isam_update s g v r) = isam_factors_size s + SizeT.size g;
}.

Context {S : Solver}.

(** ** The optimizer object *)

Record ISAM2TrajOptimizer : Type := {
  setting_ : TrajOptimizerSetting;
  arm_ : ROBOT;
  sdf_ : SDF;
  isam_ : ISAM2;
  inc_graph_ : NonlinearFactorGraph;
  init_values_ : Values;
  opt_values_ : Values;
  removed_factor_index_ : FactorIndices;
  goal_conf_factor_idx_ : N;
  goal_vel_factor_idx_ : N;
}.

(** The assignments to single members. *)
Definition set_isam (x : ISAM2) (o : ISAM2TrajOptimizer) : ISAM2TrajOptimizer :=
  {| setting_ := setting_ o; arm_ := arm_ o; sdf_ := sdf_ o; isam_ := x;
     inc_graph_ := inc_graph_ o; init_values_ := init_values_ o;
     opt_values_ := opt_values_ o;
     removed_factor_index_ := removed_factor_index_ o;
     goal_conf_factor_idx_ := goal_conf_factor_idx_ o;
     goal_vel_factor_idx_ := goal_vel_factor_idx_ o |}.

Definition set_inc_graph (g : NonlinearFactorGraph) (o : ISAM2TrajOptimizer)
  : ISAM2TrajOptimizer :=
  {| setting_ := setting_ o; arm_ := arm_ o; sdf_ := sdf_ o; isam_ := isam_ o;
     inc_graph_ := g; init_values_ := init_values_ o;
     opt_values_ := opt_values_ o;
     removed_factor_index_ := removed_factor_index_ o;
     goal_conf_factor_idx_ := goal_conf_factor_idx_ o;
     goal_vel_factor_idx_ := goal_vel_factor_idx_ o |}.

Definition set_init_values (v : Values) (o : ISAM2TrajOptimizer)
  : ISAM2TrajOptimizer :=
  {| setting_ := setting_ o; arm_ := arm_ o; sdf_ := sdf_ o; isam_ := isam_ o;
     inc_graph_ := inc_graph_ o; init_values_ := v;
     opt_values_ := opt_values_ o;
     removed_factor_index_ := removed_factor_index_ o;
     goal_conf_factor_idx_ := goal_conf_factor_idx_ o;
     goal_vel_factor_idx_ := goal_vel_factor_idx_ o |}.

Definition set_opt_values (v : Values) (o : ISAM2TrajOptimizer)
  : ISAM2TrajOptimizer :=
  {| setting_ := setting_ o; arm_ := arm_ o; sdf_ := sdf_ o; isam_ := isam_ o;
     inc_graph_ := inc_graph_ o; init_values_ := init_values_ o;
     opt_values_ := v;
     removed_factor_index_ := removed_factor_index_ o;
     goal_conf_factor_idx_ := goal_conf_factor_idx_ o;
     goal_vel_factor_idx_ := goal_vel_factor_idx_ o |}.

Definition set_removed_factor_index (r : FactorIndices) (o : ISAM2TrajOptimizer)
  : ISAM2TrajOptimizer :=
  {| setting_ := setting_ o; arm_ := arm_ o; sdf_ := sdf_ o; isam_ := isam_ o;
     inc_graph_ := inc_graph_ o; init_values_ := init_values_ o;
     opt_values_ := opt_values_ o;
     removed_factor_index_ := r;
     goal_conf_factor_idx_ := goal_conf_factor_idx_ o;
     goal_vel_factor_idx_ := goal_vel_factor_idx_ o |}.

Definition set_goal_conf_factor_idx (n : N) (o : ISAM2TrajOptimizer)
  : ISAM2TrajOptimizer :=
  {| setting_ := setting_ o; arm_ := arm_ o; sdf_ := sdf_ o; isam_ := isam_ o;
     inc_graph_ := inc_graph_ o; init_values_ := init_values_ o;
     opt_values_ := opt_values_ o;
     removed_factor_index_ := removed_factor_index_ o;
     goal_conf_factor_idx_ := n;
     goal_vel_factor_idx_ := goal_vel_factor_idx_ o |}.

Definition set_goal_vel_factor_idx (n : N) (o : ISAM2TrajOptimizer)
  : ISAM2TrajOptimizer :=
  {| setting_ := setting_ o; arm_ := arm_ o; sdf_ := sdf_ o; isam_ := isam_ o;
     inc_graph_ := inc_graph_ o; init_values_ := init_values_ o;
     opt_values_ := opt_values_ o;
     removed_factor_index_ := removed_factor_index_ o;
     goal_conf_factor_idx_ := goal_conf_factor_idx_ o;
     goal_vel_factor_idx_ := n |}.

(** [inc_graph_.add(f)] and [removed_factor_index_.push_back(i)]. *)
Definition graph_add (f : Factor) (o : ISAM2TrajOptimizer) : ISAM2TrajOptimizer :=
  set_inc_graph (inc_graph_ o ++ [f]) o.

Definition removed_push_back (i : N) (o : ISAM2TrajOptimizer) : ISAM2TrajOptimizer :=
  set_removed_factor_index (removed_factor_index_ o ++ [i]) o.

(** ** The member functions *)

(** The constructor: both cached indices start at 0, the buffers and the
    estimate are default-constructed, the engine is built from its
    parameters (Gauss-Newton, relinearisation threshold 1e-3, skip 1). *)
Definition ISAM2TrajOptimizer_new (arm : ROBOT) (sdf : SDF)
    (setting : TrajOptimizerSetting) : ISAM2TrajOptimizer :=
  {| setting_ := setting; arm_ := arm; sdf_ := sdf; isam_ := isam_new;
     inc_graph_ := []; init_values_ := ∅; opt_values_ := ∅;
     removed_factor_index_ := [];
     goal_conf_factor_idx_ := 0; goal_vel_factor_idx_ := 0 |}.

(** The inner loop of [initFactorGraph], one interpolated cost factor for
    every [j] in 1..obs_check_inter.  The counter is a size_t compared by
    [j <= obs_check_inter]: these are the values it takes for every
    obs_check_inter below SIZE_MAX, where the increment cannot wrap. *)
Definition add_interpolated (last_pose_key last_vel_key pose_key vel_key : Key)
    (delta_t inter_dt : double) (o : ISAM2TrajOptimizer) : ISAM2TrajOptimizer :=
  let st := setting_ o in
  foldl (fun o j =>
           let tau := double_mul inter_dt (double_of_size_t j) in
           graph_add (OBS_FACTOR_GP last_pose_key last_vel_key pose_key vel_key
                        (arm_ o) (sdf_ o) (cost_sigma st) (epsilon st)
                        (Qc_model st) delta_t tau) o)
        o (SizeT.range 1 (N.to_nat (obs_check_inter st))).

(** The body of the outer loop of [initFactorGraph] at counter [i]. *)
Definition build_step (start_conf : Pose) (start_vel : Velocity)
    (goal_conf : Pose) (goal_vel : Velocity) (delta_t inter_dt : double)
    (o : ISAM2TrajOptimizer) (i : N) : ISAM2TrajOptimizer :=
  let st := setting_ o in
  let pose_key := Symbol "x" i in
  let vel_key := Symbol "v" i in
  (* start and end *)
  let o :=
    if i =? 0 then
      let o := graph_add (PriorFactorPose pose_key start_conf (conf_prior_model st)) o in
      graph_add (PriorFactorVelocity vel_key start_vel (vel_prior_model st)) o
    else if i =? total_step st then
      let o := graph_add (PriorFactorPose pose_key goal_conf (conf_prior_model st)) o in
      let o := set_goal_conf_factor_idx (SizeT.sub (SizeT.size (inc_graph_ o)) 1) o in
      let o := graph_add (PriorFactorVelocity vel_key goal_vel (vel_prior_model st)) o in
      set_goal_vel_factor_idx (SizeT.sub (SizeT.size (inc_graph_ o)) 1) o
    else o in
  (* non-interpolated cost factor *)
  let o := graph_add (OBS_FACTOR pose_key (arm_ o) (sdf_ o) (cost_sigma st) (epsilon st)) o in
  if 0 <? i then
    let last_pose_key := Symbol "x" (SizeT.sub i 1) in
    let last_vel_key := Symbol "v" (SizeT.sub i 1) in
    (* interpolated cost factor *)
    let o :=
      if 0 <? obs_check_inter st then
        add_interpolated last_pose_key last_vel_key pose_key vel_key delta_t inter_dt o
      else o in
    (* GP factor *)
    graph_add (GP last_pose_key last_vel_key pose_key vel_key delta_t (Qc_model st)) o
  else o.

(** [initFactorGraph]: the loop counter runs over 0..total_step, the values
    a size_t counter compared by [i <= total_step] takes for every
    total_step below SIZE_MAX.  The division by [total_step] is a division
    of doubles and raises nothing when the divisor is zero. *)
Definition initFactorGraph (start_conf : Pose) (start_vel : Velocity)
    (goal_conf : Pose) (goal_vel : Velocity) (o : ISAM2TrajOptimizer)
  : ISAM2TrajOptimizer :=
  let st := setting_ o in
  let delta_t := double_div (total_time st) (double_of_size_t (total_step st)) in
  let inter_dt :=
    double_div delta_t (double_of_size_t (SizeT.add (obs_check_inter st) 1)) in
  foldl (build_step start_conf start_vel goal_conf goal_vel delta_t inter_dt)
        o (SizeT.range 0 (N.to_nat (total_step st) + 1)).

Definition initValues (init_values : Values) (o : ISAM2TrajOptimizer)
  : ISAM2TrajOptimizer :=
  set_init_values init_values o.

Definition update (o : ISAM2TrajOptimizer) : ISAM2TrajOptimizer :=
  (* update isam *)
  let o := set_isam (isam_update (isam_ o) (inc_graph_ o) (init_values_ o)
                                 (removed_factor_index_ o)) o in
  (* estimated values *)
  let o := set_opt_values (isam_calculateEstimate (isam_ o)) o in
  (* clean iSAM used things *)
  let o := set_init_values ∅ o in
  let o := set_inc_graph [] o in
  set_removed_factor_index [] o.

Definition changeGoalConfigAndVel (goal_conf : Pose) (goal_vel : Velocity)
    (o : ISAM2TrajOptimizer) : ISAM2TrajOptimizer :=
  let st := setting_ o in
  (* add old eq factor' index in remove list *)
  let o := removed_push_back (goal_conf_factor_idx_ o) o in
  let o := removed_push_back (goal_vel_factor_idx_ o) o in
  (* add new eq factor of goal conf *)
  let o := graph_add (PriorFactorPose (Symbol "x" (total_step st)) goal_conf
                        (conf_prior_model st)) o in
  (* cache this factors's idx *)
  let o := set_goal_conf_factor_idx
             (SizeT.sub (SizeT.add (isam_factors_size (isam_ o))
                                   (SizeT.size (inc_graph_ o))) 1) o in
  (* add new eq factor of goal vel *)
  let o := graph_add (PriorFactorVelocity (Symbol "v" (total_step st)) goal_vel
                        (vel_prior_model st)) o in
  (* cache this factors's idx *)
  set_goal_vel_factor_idx
    (SizeT.sub (SizeT.add (isam_factors_size (isam_ o))
                          (SizeT.size (inc_graph_ o))) 1) o.

Definition fixConfigAndVel (state_idx : N) (conf_fix : Pose) (vel_fix : Velocity)
    (o : ISAM2TrajOptimizer) : ISAM2TrajOptimizer :=
  let st := setting_ o in
  (* fix conf and vel at given pose index *)
  let o := graph_add (PriorFactorPose (Symbol "x" state_idx) conf_fix
                        (conf_prior_model st)) o in
  graph_add (PriorFactorVelocity (Symbol "v" state_idx) vel_fix
               (vel_prior_model st)) o.

(** ** Sequences of calls *)

Inductive Call : Type :=
| CallInitFactorGraph (start_conf : Pose) (start_vel : Velocity)
    (goal_conf : Pose) (goal_vel : Velocity)
| CallInitValues (init_values : Values)
| CallUpdate
| CallChangeGoalConfigAndVel (goal_conf : Pose) (goal_vel : Velocity)
| CallFixConfigAndVel (state_idx : N) (conf_fix : Pose) (vel_fix : Velocity).

Definition call (c : Call) (o : ISAM2TrajOptimizer) : ISAM2TrajOptimizer :=
  match c with
  | CallInitFactorGraph sc sv gc gv => initFactorGraph sc sv gc gv o
  | CallInitValues v => initValues v o
  | CallUpdate => update o
  | CallChangeGoalConfigAndVel gc gv => changeGoalConfigAndVel gc gv o
  | CallFixConfigAndVel i c v => fixConfigAndVel i c v o
  end.

Definition calls (cs : list Call) (o : ISAM2TrajOptimizer) : ISAM2TrajOptimizer :=
  foldl (fun o c => call c o) o cs.

(** The two member functions that assign the cached goal factor indices. *)
Definition caches_goal_idx (c : Call) : bool :=
  match c with
  | CallInitFactorGraph _ _ _ _ | CallChangeGoalConfigAndVel _ _ => true
  | _ => false
  end.

(** The pair of indices held by the cache right after the last call of
    [cs] that assigns it, and [dflt] when [cs] has no such call. *)
Fixpoint last_cached (cs : list Call) (o : ISAM2TrajOptimizer) (dflt : N * N)
  : N * N :=
  match cs with
  | [] => dflt
  | c :: cs =>
      let o' := call c o in
      last_cached cs o'
        (if caches_goal_idx c
         then (goal_conf_factor_idx_ o', goal_vel_factor_idx_ o')
         else dflt)
  end.

(** ** Vocabulary of the statements *)

(** Number of factors the solver holds once the pending batch is appended. *)
Definition store_size_after_update (o : ISAM2TrajOptimizer) : N :=
  isam_factors_size (isam_ o) + SizeT.size (inc_graph_ o).

(** Every pending removal names a factor committed by an earlier update. *)
Definition removals_committed (o : ISAM2TrajOptimizer) : Prop :=
  Forall (fun i => i < isam_factors_size (isam_ o)) (removed_factor_index_ o).

(** Every pending removal names a factor the store holds once the pending
    batch is appended. *)
Definition removals_in_store (o : ISAM2TrajOptimizer) : Prop :=
  Forall (fun i => i < store_size_after_update o) (removed_factor_index_ o).

(** Both cached goal indices name a slot the store holds once the pending
    batch is appended, or are still the 0 of the constructor while nothing
    was ever added. *)
Definition cache_in_store (o : ISAM2TrajOptimizer) : Prop :=
  goal_conf_factor_idx_ o < N.max (store_size_after_update o) 1 /\
  goal_vel_factor_idx_ o < N.max (store_size_after_update o) 1.

(** The pending factor a solver index [i] stands for, when it stands for
    one: position [i - committed size] of the pending batch. *)
Definition pending_at (o : ISAM2TrajOptimizer) (i : N) : option Factor :=
  if i <? isam_factors_size (isam_ o) then None
  else inc_graph_ o !! N.to_nat (i - isam_factors_size (isam_ o)).

Definition is_prior (f : Factor) : bool :=
  match f with
  | PriorFactorPose _ _ _ | PriorFactorVelocity _ _ _ => true
  | _ => false
  end.

(** A prior factor on a key of step [i]. *)
Definition is_prior_at (i : N) (f : Factor) : bool :=
  match f with
  | PriorFactorPose k _ _ | PriorFactorVelocity k _ _ => index k =? i
  | _ => false
  end.

Definition is_obstacle (f : Factor) : bool :=
  match f with OBS_FACTOR _ _ _ _ _ => true | _ => false end.

Definition is_interpolated (f : Factor) : bool :=
  match f with OBS_FACTOR_GP _ _ _ _ _ _ _ _ _ _ _ => true | _ => false end.

Definition is_smoothness (f : Factor) : bool :=
  match f with GP _ _ _ _ _ _ => true | _ => false end.

Definition count_factors (p : Factor -> bool) (g : NonlinearFactorGraph) : N :=
  SizeT.size (List.filter p g).

(** The factors one round of the outer loop of [initFactorGraph] appends,
    read off [build_step]. *)
Definition interpolated_factors (st : TrajOptimizerSetting) (arm : ROBOT) (sdf : SDF)
    (last_pose_key last_vel_key pose_key vel_key : Key) (delta_t inter_dt : double)
  : list Factor :=
  (fun j => OBS_FACTOR_GP last_pose_key last_vel_key pose_key vel_key arm sdf
              (cost_sigma st) (epsilon st) (Qc_model st) delta_t
              (double_mul inter_dt (double_of_size_t j)))
    <$> SizeT.range 1 (N.to_nat (obs_check_inter st)).

Definition step_factors (st : TrajOptimizerSetting) (arm : ROBOT) (sdf : SDF)
    (start_conf : Pose) (start_vel : Velocity) (goal_conf : Pose)
    (goal_vel : Velocity) (delta_t inter_dt : double) (i : N) : list Factor :=
  (if i =? 0 then
     [PriorFactorPose (Symbol "x" i) start_conf (conf_prior_model st);
      PriorFactorVelocity (Symbol "v" i) start_vel (vel_prior_model st)]
   else if i =? total_step st then
     [PriorFactorPose (Symbol "x" i) goal_conf (conf_prior_model st);
      PriorFactorVelocity (Symbol "v" i) goal_vel (vel_prior_model st)]
   else [])
  ++ [OBS_FACTOR (Symbol "x" i) arm sdf (cost_sigma st) (epsilon st)]
  ++ (if 0 <? i then
        interpolated_factors st arm sdf
          (Symbol "x" (SizeT.sub i 1)) (Symbol "v" (SizeT.sub i 1))
          (Symbol "x" i) (Symbol "v" i) delta_t inter_dt
        ++ [GP (Symbol "x" (SizeT.sub i 1)) (Symbol "v" (SizeT.sub i 1))
              (Symbol "x" i) (Symbol "v" i) delta_t (Qc_model st)]
      else []).

(** [delta_t] and [inter_dt] as [initFactorGraph] computes them. *)
Definition delta_t_of (st : TrajOptimizerSetting) : double :=
  double_div (total_time st) (double_of_size_t (total_step st)).

Definition inter_dt_of (st : TrajOptimizerSetting) : double :=
  double_div (delta_t_of st)
             (double_of_size_t (SizeT.add (obs_check_inter st) 1)).

(** [o'] differs from [o] at most in the pending factors and in the two
    cached indices. *)
Definition same_but_graph_and_cache (o o' : ISAM2TrajOptimizer) : Prop :=
  setting_ o' = setting_ o /\ arm_ o' = arm_ o /\ sdf_ o' = sdf_ o /\
  isam_ o' = isam_ o /\ init_values_ o' = init_values_ o /\
  opt_values_ o' = opt_values_ o /\
  removed_factor_index_ o' = removed_factor_index_ o.

(** The whole sequence [initFactorGraph] appends. *)
Definition build_factors (st : TrajOptimizerSetting) (arm : ROBOT) (sdf : SDF)
    (start_conf : Pose) (start_vel : Velocity) (goal_conf : Pose)
    (goal_vel : Velocity) : list Factor :=
  concat (map (step_factors st arm sdf start_conf start_vel goal_conf goal_vel
                 (delta_t_of st) (inter_dt_of st))
              (SizeT.range 0 (N.to_nat (total_step st) + 1))).

(** The total number of constraints of a build of [n] steps with [k]
    interpolated checks per step, written as the spec states it:
    2 + (N) + N*(1) + N*obs_check_inter.  This one follows the spec's words,
    not the source; it is compared with what [initFactorGraph] appends. *)
Definition spec_stated_total (n k : N) : N := 2 + n + n * 1 + n * k.

(** The keys a factor is constructed on, in the order the source passes
    them to its constructor. *)
Definition factor_keys (f : Factor) : list Key :=
  match f with
  | PriorFactorPose k _ _ | PriorFactorVelocity k _ _ => [k]
  | OBS_FACTOR k _ _ _ _ => [k]
  | OBS_FACTOR_GP p1 v1 p2 v2 _ _ _ _ _ _ _ => [p1; v1; p2; v2]
  | GP p1 v1 p2 v2 _ _ => [p1; v1; p2; v2]
  end.

Definition is_build (c : Call) : bool :=
  match c with CallInitFactorGraph _ _ _ _ => true | _ => false end.

(** The goal state passed by the last [changeGoalConfigAndVel] of [cs], and
    [g] when [cs] has none. *)
Fixpoint latest_goal (cs : list Call) (g : Pose * Velocity) : Pose * Velocity :=
  match cs with
  | [] => g
  | CallChangeGoalConfigAndVel gc gv :: cs => latest_goal cs (gc, gv)
  | _ :: cs => latest_goal cs g
  end.

End Planner.

Abbreviation NonlinearFactorGraph := (list Factor).
Abbreviation Values := (gmap Key Value).
Abbreviation FactorIndices := (list N).

Arguments Solver D : clear implicits.
Arguments ISAM2TrajOptimizer D S : clear implicits.

(** ** A store of slots as solver *)

Section SlotStore.

Context {D : Domain}.

(** Modelled from the spec: gtsam::ISAM2 is an external engine; this is the
    solver boundary as the spec describes it.  The committed store is a
    sequence of slots; an update appends the submitted constraints in their
    order and then blanks the slots named for removal, without compacting.
    The estimate it hands back is the collection of initial guesses
    received so far: the numerical optimisation is not modelled. *)
Record SlotStore : Type := {
  slots : list (option Factor);
  theta : gmap Key Value;
}.

Definition slot_store_update (s : SlotStore) (g : NonlinearFactorGraph)
    (v : gmap Key Value) (r : FactorIndices) : SlotStore :=
  {| slots := foldl (fun sl i => <[N.to_nat i := None]> sl)
                    (slots s ++ (Some <$> g)) r;
     theta := theta s ∪ v |}.

#[export] Instance slot_store_solver : Solver D :=
  {| ISAM2 := SlotStore;
     isam_new := {| slots := []; theta := ∅ |};
     isam_update := slot_store_update;
     isam_calculateEstimate := theta;
     isam_factors_size := fun s => SizeT.size (slots s) |}.

(** The slots the store holds once it has appended the pending factors,
    before it blanks the slots named for removal. *)
Definition slots_with_pending (o : ISAM2TrajOptimizer D slot_store_solver)
  : list (option Factor) :=
  slots (isam_ o) ++ (Some <$> inc_graph_ o).

(** The cached indices name, among those slots, the priors of the goal
    state [g], and no pending removal reaches them. *)
Definition tracks_goal (o : ISAM2TrajOptimizer D slot_store_solver)
    (g : Pose * Velocity) : Prop :=
  let st := setting_ o in
  slots_with_pending o !! N.to_nat (goal_conf_factor_idx_ o) =
    Some (Some (PriorFactorPose (Symbol "x" (total_step st)) (fst g)
                  (conf_prior_model st))) /\
  slots_with_pending o !! N.to_nat (goal_vel_factor_idx_ o) =
    Some (Some (PriorFactorVelocity (Symbol "v" (total_step st)) (snd g)
                  (vel_prior_model st))) /\
  Forall (fun r => r < goal_conf_factor_idx_ o /\ r < goal_vel_factor_idx_ o)
         (removed_factor_index_ o).

End SlotStore.

(** ** The scenario of the spec: a point robot in the plane *)

Module Scenario.

(** A C++ double held as the expression that computes it, so that no
    property of floating-point arithmetic is assumed. *)
Inductive dbl : Type :=
| dbl_const (n : Z)
| dbl_of_size_t (n : N)
| dbl_div (a b : dbl)
| dbl_mul (a b : dbl).

#[export] Instance point_robot : Domain :=
  {| Pose := Z * Z; Velocity := Z * Z; ROBOT := unit; SDF := unit;
     SharedNoiseModel := unit; Value := Z * Z; double := dbl;
     double_of_size_t := dbl_of_size_t;
     double_div := dbl_div; double_mul := dbl_mul |}.

Definition setting_of (steps inter : N) : TrajOptimizerSetting :=
  {| total_step := steps; total_time := dbl_const 10; obs_check_inter := inter;
     conf_prior_model := tt; vel_prior_model := tt; Qc_model := tt;
     cost_sigma := dbl_const 1; epsilon := dbl_const 2 |}.

(** N = 5 steps, one interpolated check between two steps. *)
Definition fresh : ISAM2TrajOptimizer point_robot slot_store_solver :=
  ISAM2TrajOptimizer_new tt tt (setting_of 5 1).

Definition built : ISAM2TrajOptimizer point_robot slot_store_solver :=
  initFactorGraph (0, 0)%Z (0, 0)%Z (10, 0)%Z (0, 0)%Z fresh.

(** The same robot with a total step count of zero. *)
Definition fresh0 : ISAM2TrajOptimizer point_robot slot_store_solver :=
  ISAM2TrajOptimizer_new tt tt (setting_of 0 1).

Definition built0 : ISAM2TrajOptimizer point_robot slot_store_solver :=
  initFactorGraph (0, 0)%Z (0, 0)%Z (10, 0)%Z (0, 0)%Z fresh0.

(** The calls of the scenario: the build, and the goal moved to (12, 0). *)
Definition build_call : Call :=
  CallInitFactorGraph (0, 0)%Z (0, 0)%Z (10, 0)%Z (0, 0)%Z.

Definition regoal_call : Call :=
  CallChangeGoalConfigAndVel (12, 0)%Z (0, 0)%Z.

Definition regoaled : ISAM2TrajOptimizer point_robot slot_store_solver :=
  changeGoalConfigAndVel (12, 0)%Z (0, 0)%Z built.

(** Step [i] pinned to the state ((3, 1), (0, 0)) after the build. *)
Definition pinned_at (i : N) : ISAM2TrajOptimizer point_robot slot_store_solver :=
  fixConfigAndVel i (3, 1)%Z (0, 0)%Z built.

(** A second goal change, and the last step pinned. *)
Definition regoal2_call : Call :=
  CallChangeGoalConfigAndVel (14, 1)%Z (0, 1)%Z.

Definition pin_call : Call :=
  CallFixConfigAndVel 5 (3, 1)%Z (0, 0)%Z.

End Scenario.

(** * Facts *)

(** ** size_t arithmetic without wrap-around *)

Module SizeTFacts.

Lemma sub_1 (a : N) :
  1 <= a <= SizeT.modulus -> SizeT.sub a 1 = a - 1.
Proof.
  unfold SizeT.sub, SizeT.modulus. intros H.
  rewrite Z.mod_small by lia. lia.
Qed.

Lemma sub_add_1 (a b : N) :
  1 <= a + b <= SizeT.modulus -> SizeT.sub (SizeT.add a b) 1 = a + b - 1.
Proof.
  unfold SizeT.add. intros H.
  destruct (N.eq_dec (a + b) SizeT.modulus) as [E|E].
  - rewrite E, N.Div0.mod_same. reflexivity.
  - rewrite N.mod_small by lia. apply sub_1. lia.
Qed.

Lemma size_app {A : Type} (u v : list A) :
  SizeT.size (u ++ v) = SizeT.size u + SizeT.size v.
Proof. unfold SizeT.size. rewrite length_app. lia. Qed.

Lemma size_cons {A : Type} (x : A) (v : list A) :
  SizeT.size (x :: v) = 1 + SizeT.size v.
Proof. unfold SizeT.size. simpl. lia. Qed.

Lemma size_nil {A : Type} : SizeT.size (@nil A) = 0.
Proof. reflexivity. Qed.

Lemma range_length (lo : N) (n : nat) : length (SizeT.range lo n) = n.
Proof. unfold SizeT.range. rewrite length_fmap, length_seq. reflexivity. Qed.

Lemma range_snoc (lo : N) (n : nat) :
  SizeT.range lo (S n) = SizeT.range lo n ++ [lo + N.of_nat n].
Proof.
  unfold SizeT.range. rewrite seq_S, fmap_app. reflexivity.
Qed.

Lemma range_cons (lo : N) (n : nat) :
  SizeT.range lo (S n) = lo :: SizeT.range (lo + 1) n.
Proof.
  unfold SizeT.range. simpl. rewrite N.add_0_r. f_equal.
  rewrite <- fmap_S_seq, <- list_fmap_compose.
  apply list_fmap_ext. intros _ k _. simpl. lia.
Qed.

Lemma range_bounds (lo : N) (n : nat) (i : N) :
  i ∈ SizeT.range lo n -> lo <= i < lo + N.of_nat n.
Proof.
  unfold SizeT.range. intros H.
  apply list_elem_of_fmap in H as (k & -> & Hk).
  apply elem_of_seq in Hk. lia.
Qed.

End SizeTFacts.

Create Rewrite HintDb size_t.

#[export] Hint Rewrite @SizeTFacts.size_app @SizeTFacts.size_cons
  @SizeTFacts.size_nil : size_t.

(** ** What each member function does to each member *)

Section Effects.

Context {D : Domain} {S : Solver D}.

Implicit Types o : ISAM2TrajOptimizer D S.

Lemma optimizer_ext o o' :
  setting_ o = setting_ o' -> arm_ o = arm_ o' -> sdf_ o = sdf_ o' ->
  isam_ o = isam_ o' -> inc_graph_ o = inc_graph_ o' ->
  init_values_ o = init_values_ o' -> opt_values_ o = opt_values_ o' ->
  removed_factor_index_ o = removed_factor_index_ o' ->
  goal_conf_factor_idx_ o = goal_conf_factor_idx_ o' ->
  goal_vel_factor_idx_ o = goal_vel_factor_idx_ o' ->
  o = o'.
Proof. destruct o, o'. simpl. intros. subst. reflexivity. Qed.

Lemma interpolated_factors_none (st : TrajOptimizerSetting) arm sdf lp lv p v dt idt :
  obs_check_inter st = 0 ->
  interpolated_factors st arm sdf lp lv p v dt idt = [].
Proof. unfold interpolated_factors. intros ->. reflexivity. Qed.

Lemma add_interpolated_effect lp lv p v dt idt o :
  add_interpolated lp lv p v dt idt o =
  set_inc_graph
    (inc_graph_ o ++
     interpolated_factors (setting_ o) (arm_ o) (sdf_ o) lp lv p v dt idt) o.
Proof.
  unfold add_interpolated, interpolated_factors.
  generalize (SizeT.range 1 (N.to_nat (obs_check_inter (setting_ o)))) as js.
  generalize (setting_ o) as st. intros st js. revert o.
  induction js as [|j js IH]; intros o.
  - destruct o. unfold set_inc_graph. simpl. rewrite app_nil_r. reflexivity.
  - simpl. rewrite IH. destruct o. unfold graph_add, set_inc_graph. simpl.
    rewrite <- app_assoc. reflexivity.
Qed.

Lemma build_step_effect sc sv gc gv dt idt o i :
  build_step sc sv gc gv dt idt o i =
  let g := inc_graph_ o ++
           step_factors (setting_ o) (arm_ o) (sdf_ o) sc sv gc gv dt idt i in
  if negb (i =? 0) && (i =? total_step (setting_ o)) then
    set_inc_graph g
      (set_goal_vel_factor_idx
         (SizeT.sub (SizeT.size (inc_graph_ o ++
            [PriorFactorPose (Symbol "x" i) gc (conf_prior_model (setting_ o));
             PriorFactorVelocity (Symbol "v" i) gv (vel_prior_model (setting_ o))])) 1)
         (set_goal_conf_factor_idx
            (SizeT.sub (SizeT.size (inc_graph_ o ++
               [PriorFactorPose (Symbol "x" i) gc (conf_prior_model (setting_ o))])) 1)
            o))
  else set_inc_graph g o.
Proof.
  unfold build_step, step_factors.
  destruct (i =? 0) eqn:E0; destruct (i =? total_step (setting_ o)) eqn:EN;
    destruct (0 <? i) eqn:Epos;
    destruct (0 <? obs_check_inter (setting_ o)) eqn:Ek;
    try rewrite add_interpolated_effect;
    apply optimizer_ext; simpl; try reflexivity;
    try (apply N.ltb_ge in Ek;
         rewrite (interpolated_factors_none (setting_ o)) by lia);
    rewrite <- ?app_assoc; reflexivity.
Qed.

Lemma same_but_graph_and_cache_refl o : same_but_graph_and_cache o o.
Proof. repeat split. Qed.

Lemma same_but_graph_and_cache_trans o1 o2 o3 :
  same_but_graph_and_cache o1 o2 -> same_but_graph_and_cache o2 o3 ->
  same_but_graph_and_cache o1 o3.
Proof.
  unfold same_but_graph_and_cache.
  intros (?&?&?&?&?&?&?) (?&?&?&?&?&?&?). repeat split; congruence.
Qed.

Lemma build_step_frame sc sv gc gv dt idt o i :
  same_but_graph_and_cache o (build_step sc sv gc gv dt idt o i).
Proof.
  rewrite build_step_effect. cbv zeta.
  destruct (negb (i =? 0) && (i =? total_step (setting_ o))); repeat split.
Qed.

Lemma build_step_inc_graph sc sv gc gv dt idt o i :
  inc_graph_ (build_step sc sv gc gv dt idt o i) =
  inc_graph_ o ++ step_factors (setting_ o) (arm_ o) (sdf_ o) sc sv gc gv dt idt i.
Proof.
  rewrite build_step_effect. cbv zeta.
  destruct (negb (i =? 0) && (i =? total_step (setting_ o))); reflexivity.
Qed.

Lemma build_loop_frame sc sv gc gv dt idt (cnt : list N) o :
  same_but_graph_and_cache o (foldl (build_step sc sv gc gv dt idt) o cnt).
Proof.
  revert o. induction cnt as [|i cnt IH]; intros o; simpl.
  - apply same_but_graph_and_cache_refl.
  - eapply same_but_graph_and_cache_trans; [apply build_step_frame | apply IH].
Qed.

Lemma build_loop_inc_graph sc sv gc gv dt idt (cnt : list N) o :
  inc_graph_ (foldl (build_step sc sv gc gv dt idt) o cnt) =
  inc_graph_ o ++
  concat (map (step_factors (setting_ o) (arm_ o) (sdf_ o) sc sv gc gv dt idt) cnt).
Proof.
  revert o. induction cnt as [|i cnt IH]; intros o; simpl.
  - rewrite app_nil_r. reflexivity.
  - rewrite IH, build_step_inc_graph.
    destruct (build_step_frame sc sv gc gv dt idt o i) as (-> & -> & -> & _).
    rewrite <- app_assoc. reflexivity.
Qed.

Lemma initFactorGraph_frame sc sv gc gv o :
  same_but_graph_and_cache o (initFactorGraph sc sv gc gv o).
Proof. apply build_loop_frame. Qed.

Lemma initFactorGraph_inc_graph sc sv gc gv o :
  inc_graph_ (initFactorGraph sc sv gc gv o) =
  inc_graph_ o ++ build_factors (setting_ o) (arm_ o) (sdf_ o) sc sv gc gv.
Proof. apply build_loop_inc_graph. Qed.

(** The last round of the loop, the one that caches the indices. *)
Lemma initFactorGraph_last_round sc sv gc gv o :
  1 <= total_step (setting_ o) ->
  let st := setting_ o in
  let o1 := foldl (build_step sc sv gc gv (delta_t_of st) (inter_dt_of st)) o
                  (SizeT.range 0 (N.to_nat (total_step st))) in
  let pp := PriorFactorPose (Symbol "x" (total_step st)) gc (conf_prior_model st) in
  let pv := PriorFactorVelocity (Symbol "v" (total_step st)) gv (vel_prior_model st) in
  goal_conf_factor_idx_ (initFactorGraph sc sv gc gv o)
    = SizeT.sub (SizeT.size (inc_graph_ o1 ++ [pp])) 1 /\
  goal_vel_factor_idx_ (initFactorGraph sc sv gc gv o)
    = SizeT.sub (SizeT.size (inc_graph_ o1 ++ [pp; pv])) 1 /\
  inc_graph_ (initFactorGraph sc sv gc gv o)
    = inc_graph_ o1 ++
      step_factors st (arm_ o) (sdf_ o) sc sv gc gv (delta_t_of st) (inter_dt_of st)
                   (total_step st).
Proof.
  intros HN st o1 pp pv. change (1 <= total_step st) in HN.
  unfold initFactorGraph. fold st. fold (delta_t_of st). fold (inter_dt_of st).
  replace (N.to_nat (total_step st) + 1)%nat with (Datatypes.S (N.to_nat (total_step st)))
    by lia.
  rewrite SizeTFacts.range_snoc, foldl_app. simpl. fold o1.
  rewrite N.add_0_l, N2Nat.id.
  destruct (build_loop_frame sc sv gc gv (delta_t_of st) (inter_dt_of st)
              (SizeT.range 0 (N.to_nat (total_step st))) o) as (Hs & Ha & Hd & _).
  fold o1 in Hs, Ha, Hd.
  rewrite build_step_effect. cbv zeta. rewrite Hs, Ha, Hd. fold st.
  assert (E0 : (total_step st =? 0) = false) by (apply N.eqb_neq; lia).
  rewrite E0, N.eqb_refl. simpl. repeat split.
Qed.

(** *** The sequence the build emits, round by round *)

Lemma step_factors_first (st : TrajOptimizerSetting) arm sdf sc sv gc gv dt idt :
  step_factors st arm sdf sc sv gc gv dt idt 0 =
  [PriorFactorPose (Symbol "x" 0) sc (conf_prior_model st);
   PriorFactorVelocity (Symbol "v" 0) sv (vel_prior_model st);
   OBS_FACTOR (Symbol "x" 0) arm sdf (cost_sigma st) (epsilon st)].
Proof. reflexivity. Qed.

Lemma step_factors_middle (st : TrajOptimizerSetting) arm sdf sc sv gc gv dt idt i :
  0 < i -> i <> total_step st ->
  step_factors st arm sdf sc sv gc gv dt idt i =
  [OBS_FACTOR (Symbol "x" i) arm sdf (cost_sigma st) (epsilon st)] ++
  interpolated_factors st arm sdf
    (Symbol "x" (SizeT.sub i 1)) (Symbol "v" (SizeT.sub i 1))
    (Symbol "x" i) (Symbol "v" i) dt idt ++
  [GP (Symbol "x" (SizeT.sub i 1)) (Symbol "v" (SizeT.sub i 1))
      (Symbol "x" i) (Symbol "v" i) dt (Qc_model st)].
Proof.
  intros Hpos HN. unfold step_factors.
  destruct (N.eqb_spec i 0); [lia|].
  destruct (N.eqb_spec i (total_step st)); [lia|].
  destruct (N.ltb_spec 0 i); [|lia]. reflexivity.
Qed.

Lemma step_factors_last (st : TrajOptimizerSetting) arm sdf sc sv gc gv dt idt :
  1 <= total_step st ->
  let i := total_step st in
  step_factors st arm sdf sc sv gc gv dt idt i =
  [PriorFactorPose (Symbol "x" i) gc (conf_prior_model st);
   PriorFactorVelocity (Symbol "v" i) gv (vel_prior_model st)] ++
  [OBS_FACTOR (Symbol "x" i) arm sdf (cost_sigma st) (epsilon st)] ++
  interpolated_factors st arm sdf
    (Symbol "x" (SizeT.sub i 1)) (Symbol "v" (SizeT.sub i 1))
    (Symbol "x" i) (Symbol "v" i) dt idt ++
  [GP (Symbol "x" (SizeT.sub i 1)) (Symbol "v" (SizeT.sub i 1))
      (Symbol "x" i) (Symbol "v" i) dt (Qc_model st)].
Proof.
  intros HN i. unfold step_factors. fold i.
  destruct (N.eqb_spec i 0); [lia|].
  rewrite N.eqb_refl.
  destruct (N.ltb_spec 0 i); [|lia]. reflexivity.
Qed.

Lemma interpolated_factors_filter (p : Factor -> bool) (b : bool)
    (st : TrajOptimizerSetting) arm sdf lp lv pk vk dt idt :
  (forall tau, p (OBS_FACTOR_GP lp lv pk vk arm sdf (cost_sigma st) (epsilon st)
                    (Qc_model st) dt tau) = b) ->
  List.filter p (interpolated_factors st arm sdf lp lv pk vk dt idt) =
  if b then interpolated_factors st arm sdf lp lv pk vk dt idt else [].
Proof.
  intros Hp. unfold interpolated_factors.
  induction (SizeT.range 1 (N.to_nat (obs_check_inter st))) as [|j js IH].
  - destruct b; reflexivity.
  - rewrite !fmap_cons. cbn [List.filter]. rewrite Hp, IH.
    destruct b; reflexivity.
Qed.

Lemma interpolated_factors_size (st : TrajOptimizerSetting) arm sdf lp lv pk vk dt idt :
  SizeT.size (interpolated_factors st arm sdf lp lv pk vk dt idt) = obs_check_inter st.
Proof.
  unfold interpolated_factors, SizeT.size.
  rewrite length_fmap, SizeTFacts.range_length. lia.
Qed.

Lemma count_factors_app (p : Factor -> bool) (g h : NonlinearFactorGraph) :
  count_factors p (g ++ h) = count_factors p g + count_factors p h.
Proof.
  unfold count_factors. rewrite List.filter_app. apply SizeTFacts.size_app.
Qed.

(** The census of one round strictly between the first and the last. *)
Lemma step_factors_middle_census (st : TrajOptimizerSetting) arm sdf sc sv gc gv dt idt i :
  0 < i -> i <> total_step st ->
  let g := step_factors st arm sdf sc sv gc gv dt idt i in
  List.filter is_prior g = [] /\
  count_factors is_obstacle g = 1 /\
  count_factors is_interpolated g = obs_check_inter st /\
  count_factors is_smoothness g = 1 /\
  SizeT.size g = obs_check_inter st + 2.
Proof.
  intros Hpos HN g. subst g. rewrite step_factors_middle by assumption.
  unfold count_factors. rewrite !List.filter_app.
  rewrite (interpolated_factors_filter is_prior false) by reflexivity.
  rewrite (interpolated_factors_filter is_obstacle false) by reflexivity.
  rewrite (interpolated_factors_filter is_interpolated true) by reflexivity.
  rewrite (interpolated_factors_filter is_smoothness false) by reflexivity.
  simpl. autorewrite with size_t. rewrite !interpolated_factors_size.
  repeat split; lia.
Qed.

Lemma middle_rounds_census (st : TrajOptimizerSetting) arm sdf sc sv gc gv dt idt
    (cnt : list N) :
  Forall (fun i => 0 < i /\ i <> total_step st) cnt ->
  let g := concat (map (step_factors st arm sdf sc sv gc gv dt idt) cnt) in
  List.filter is_prior g = [] /\
  count_factors is_obstacle g = SizeT.size cnt /\
  count_factors is_interpolated g = SizeT.size cnt * obs_check_inter st /\
  count_factors is_smoothness g = SizeT.size cnt /\
  SizeT.size g = SizeT.size cnt * (obs_check_inter st + 2).
Proof.
  induction 1 as [|i cnt [Hpos HN] _ IH]; simpl.
  - repeat split.
  - destruct IH as (I1 & I2 & I3 & I4 & I5).
    destruct (step_factors_middle_census st arm sdf sc sv gc gv dt idt i Hpos HN)
      as (S1 & S2 & S3 & S4 & S5).
    rewrite List.filter_app, !count_factors_app, SizeTFacts.size_app,
      SizeTFacts.size_cons.
    rewrite I1, I2, I3, I4, I5, S1, S2, S3, S4, S5.
    repeat split; lia.
Qed.

(** The rounds of the build: the first, those in between, the last. *)
Lemma build_factors_rounds (st : TrajOptimizerSetting) arm sdf sc sv gc gv :
  1 <= total_step st ->
  let step := step_factors st arm sdf sc sv gc gv (delta_t_of st) (inter_dt_of st) in
  let between := SizeT.range 1 (N.to_nat (total_step st) - 1) in
  build_factors st arm sdf sc sv gc gv =
    step 0 ++ concat (map step between) ++ step (total_step st) /\
  concat (map step (SizeT.range 0 (N.to_nat (total_step st)))) =
    step 0 ++ concat (map step between) /\
  Forall (fun i => 0 < i /\ i <> total_step st) between /\
  SizeT.size between = total_step st - 1.
Proof.
  intros HN step between. unfold build_factors. fold step.
  assert (E : N.to_nat (total_step st) = Datatypes.S (N.to_nat (total_step st) - 1))
    by lia.
  assert (R : SizeT.range 0 (N.to_nat (total_step st)) = 0 :: between).
  { rewrite E at 1. rewrite SizeTFacts.range_cons. reflexivity. }
  replace (N.to_nat (total_step st) + 1)%nat
    with (Datatypes.S (N.to_nat (total_step st))) by lia.
  rewrite SizeTFacts.range_snoc, R, N.add_0_l, N2Nat.id.
  simpl. rewrite map_app, concat_app. simpl. rewrite app_nil_r.
  repeat split.
  - apply Forall_forall. intros i Hi.
    apply SizeTFacts.range_bounds in Hi. lia.
  - unfold SizeT.size. subst between. rewrite SizeTFacts.range_length. lia.
Qed.

Lemma step_factors_last_census (st : TrajOptimizerSetting) arm sdf sc sv gc gv dt idt :
  1 <= total_step st ->
  let n := total_step st in
  let g := step_factors st arm sdf sc sv gc gv dt idt n in
  List.filter is_prior g =
    [PriorFactorPose (Symbol "x" n) gc (conf_prior_model st);
     PriorFactorVelocity (Symbol "v" n) gv (vel_prior_model st)] /\
  count_factors is_obstacle g = 1 /\
  count_factors is_interpolated g = obs_check_inter st /\
  count_factors is_smoothness g = 1 /\
  SizeT.size g = obs_check_inter st + 4.
Proof.
  intros HN n g. subst g n. rewrite step_factors_last by assumption.
  unfold count_factors. rewrite !List.filter_app.
  rewrite (interpolated_factors_filter is_prior false) by reflexivity.
  rewrite (interpolated_factors_filter is_obstacle false) by reflexivity.
  rewrite (interpolated_factors_filter is_interpolated true) by reflexivity.
  rewrite (interpolated_factors_filter is_smoothness false) by reflexivity.
  simpl. autorewrite with size_t. rewrite !interpolated_factors_size.
  repeat split; lia.
Qed.

Lemma no_prior_no_prior_at (n : N) (g : NonlinearFactorGraph) :
  List.filter is_prior g = [] ->
  Forall (fun f => is_prior_at n f = false) g.
Proof.
  induction g as [|f g IH]; intros H; [constructor|].
  simpl in H. destruct (is_prior f) eqn:E; [discriminate|].
  constructor; [|apply IH, H].
  destruct f; simpl in E; try discriminate; reflexivity.
Qed.

(** Where the last round of the build puts the goal priors, and what it
    caches: the factors appended so far are [before], the rest of the last
    round is [after]. *)
Lemma initFactorGraph_goal_positions sc sv gc gv o :
  1 <= total_step (setting_ o) ->
  let st := setting_ o in
  let pp := PriorFactorPose (Symbol "x" (total_step st)) gc (conf_prior_model st) in
  let pv := PriorFactorVelocity (Symbol "v" (total_step st)) gv (vel_prior_model st) in
  let o' := initFactorGraph sc sv gc gv o in
  SizeT.size (inc_graph_ o') <= SizeT.modulus ->
  exists before after,
    inc_graph_ o' = inc_graph_ o ++ before ++ [pp; pv] ++ after /\
    Forall (fun f => is_prior_at (total_step st) f = false) (before ++ after) /\
    SizeT.size before = 3 + (total_step st - 1) * (obs_check_inter st + 2) /\
    goal_conf_factor_idx_ o' = SizeT.size (inc_graph_ o) + SizeT.size before /\
    goal_vel_factor_idx_ o' = SizeT.size (inc_graph_ o) + SizeT.size before + 1.
Proof.
  intros HN st pp pv o' Hfit. change (1 <= total_step st) in HN.
  destruct (initFactorGraph_last_round sc sv gc gv o HN) as (Hc & Hv & Hg).
  fold st o' in Hc, Hv, Hg. cbv zeta in Hc, Hv, Hg.
  rewrite build_loop_inc_graph in Hc, Hv, Hg. fold st in Hc, Hv, Hg.
  destruct (build_factors_rounds st (arm_ o) (sdf_ o) sc sv gc gv HN)
    as (_ & Hb & Hbetween & Hlen).
  cbv zeta in Hb, Hbetween, Hlen. rewrite Hb in Hc, Hv, Hg.
  destruct (middle_rounds_census st (arm_ o) (sdf_ o) sc sv gc gv
              (delta_t_of st) (inter_dt_of st) _ Hbetween) as (M1 & _ & _ & _ & M5).
  cbv zeta in M1, M5.
  set (mid := concat (map (step_factors st (arm_ o) (sdf_ o) sc sv gc gv
                             (delta_t_of st) (inter_dt_of st))
                          (SizeT.range 1 (N.to_nat (total_step st) - 1)))) in *.
  rewrite step_factors_last in Hg by assumption. fold pp pv in Hg.
  rewrite step_factors_first in Hc, Hv, Hg.
  assert (Hsz : SizeT.size (inc_graph_ o') =
                SizeT.size (inc_graph_ o) + 3 + SizeT.size mid + 4 + obs_check_inter st).
  { rewrite Hg. autorewrite with size_t. rewrite interpolated_factors_size. lia. }
  match type of Hg with
  | _ = (_ ++ ?first ++ _) ++ _ ++ ?rest => exists (first ++ mid), rest
  end.
  split; [|split; [|split; [|split]]].
  - rewrite Hg, <- !app_assoc. reflexivity.
  - rewrite <- app_assoc. apply Forall_app. split; [|apply Forall_app; split].
    + repeat first [apply List.Forall_nil | apply List.Forall_cons];
        cbn [is_prior_at index]; try reflexivity; apply N.eqb_neq; lia.
    + apply no_prior_no_prior_at, M1.
    + apply no_prior_no_prior_at. rewrite !List.filter_app.
      rewrite (interpolated_factors_filter is_prior false) by reflexivity.
      reflexivity.
  - autorewrite with size_t. rewrite M5, Hlen. lia.
  - rewrite Hc, SizeTFacts.sub_1.
    + autorewrite with size_t. lia.
    + revert Hsz Hfit. autorewrite with size_t. lia.
  - rewrite Hv, SizeTFacts.sub_1.
    + autorewrite with size_t. lia.
    + revert Hsz Hfit. autorewrite with size_t. lia.
Qed.

(** One round of the build either leaves the cached indices alone or sets
    them to positions inside the pending graph. *)
Lemma build_step_idx sc sv gc gv dt idt o i :
  let o' := build_step sc sv gc gv dt idt o i in
  SizeT.size (inc_graph_ o') <= SizeT.modulus ->
  SizeT.size (inc_graph_ o) < SizeT.size (inc_graph_ o') /\
  ((goal_conf_factor_idx_ o' = goal_conf_factor_idx_ o /\
    goal_vel_factor_idx_ o' = goal_vel_factor_idx_ o) \/
   (goal_conf_factor_idx_ o' < SizeT.size (inc_graph_ o') /\
    goal_vel_factor_idx_ o' < SizeT.size (inc_graph_ o'))).
Proof.
  cbv zeta. rewrite build_step_inc_graph, build_step_effect. cbv zeta.
  unfold step_factors.
  destruct (i =? 0) eqn:E0; destruct (i =? total_step (setting_ o)) eqn:EN;
    cbn [negb andb]; simpl; autorewrite with size_t; intros Hfit;
    (split; [lia|]); try (left; split; reflexivity).
  right. rewrite !(SizeTFacts.sub_1 (SizeT.size (inc_graph_ o) + _)) by lia.
  lia.
Qed.

Lemma build_loop_idx sc sv gc gv dt idt (cnt : list N) o :
  let o' := foldl (build_step sc sv gc gv dt idt) o cnt in
  SizeT.size (inc_graph_ o') <= SizeT.modulus ->
  SizeT.size (inc_graph_ o) <= SizeT.size (inc_graph_ o') /\
  (goal_conf_factor_idx_ o' = goal_conf_factor_idx_ o \/
   goal_conf_factor_idx_ o' < SizeT.size (inc_graph_ o')) /\
  (goal_vel_factor_idx_ o' = goal_vel_factor_idx_ o \/
   goal_vel_factor_idx_ o' < SizeT.size (inc_graph_ o')).
Proof.
  cbv zeta. induction cnt as [|i cnt IH] using rev_ind; intros Hfit.
  - simpl. split; [lia|]. split; left; reflexivity.
  - rewrite foldl_app in *. simpl in *.
    destruct (build_step_idx sc sv gc gv dt idt
                (foldl (build_step sc sv gc gv dt idt) o cnt) i Hfit)
      as (Hlt & Hidx).
    destruct IH as (Hle & Hc & Hv); [lia|].
    split; [lia|].
    destruct Hidx as [[-> ->]|[? ?]].
    + split; [destruct Hc; [left|right]|destruct Hv; [left|right]];
        try assumption; lia.
    + split; right; assumption.
Qed.

Lemma changeGoalConfigAndVel_effect gc gv o :
  let st := setting_ o in
  let pp := PriorFactorPose (Symbol "x" (total_step st)) gc (conf_prior_model st) in
  let pv := PriorFactorVelocity (Symbol "v" (total_step st)) gv (vel_prior_model st) in
  changeGoalConfigAndVel gc gv o =
  {| setting_ := setting_ o; arm_ := arm_ o; sdf_ := sdf_ o; isam_ := isam_ o;
     inc_graph_ := inc_graph_ o ++ [pp; pv];
     init_values_ := init_values_ o; opt_values_ := opt_values_ o;
     removed_factor_index_ :=
       removed_factor_index_ o ++ [goal_conf_factor_idx_ o; goal_vel_factor_idx_ o];
     goal_conf_factor_idx_ :=
       SizeT.sub (SizeT.add (isam_factors_size (isam_ o))
                            (SizeT.size (inc_graph_ o ++ [pp]))) 1;
     goal_vel_factor_idx_ :=
       SizeT.sub (SizeT.add (isam_factors_size (isam_ o))
                            (SizeT.size (inc_graph_ o ++ [pp; pv]))) 1 |}.
Proof.
  cbv zeta. unfold changeGoalConfigAndVel.
  apply optimizer_ext; simpl; rewrite <- ?app_assoc; reflexivity.
Qed.

Lemma fixConfigAndVel_effect i c v o :
  fixConfigAndVel i c v o =
  set_inc_graph
    (inc_graph_ o ++
     [PriorFactorPose (Symbol "x" i) c (conf_prior_model (setting_ o));
      PriorFactorVelocity (Symbol "v" i) v (vel_prior_model (setting_ o))]) o.
Proof.
  unfold fixConfigAndVel.
  apply optimizer_ext; simpl; rewrite <- ?app_assoc; reflexivity.
Qed.

Lemma update_effect o :
  update o =
  let isam' := isam_update (isam_ o) (inc_graph_ o) (init_values_ o)
                           (removed_factor_index_ o) in
  {| setting_ := setting_ o; arm_ := arm_ o; sdf_ := sdf_ o; isam_ := isam';
     inc_graph_ := []; init_values_ := ∅;
     opt_values_ := isam_calculateEstimate isam';
     removed_factor_index_ := [];
     goal_conf_factor_idx_ := goal_conf_factor_idx_ o;
     goal_vel_factor_idx_ := goal_vel_factor_idx_ o |}.
Proof. cbv zeta. unfold update. apply optimizer_ext; reflexivity. Qed.

Lemma calls_snoc (cs : list Call) (c : Call) o :
  calls (cs ++ [c]) o = call c (calls cs o).
Proof. unfold calls. rewrite foldl_app. reflexivity. Qed.

Lemma initFactorGraph_idx sc sv gc gv o :
  let o' := initFactorGraph sc sv gc gv o in
  SizeT.size (inc_graph_ o') <= SizeT.modulus ->
  SizeT.size (inc_graph_ o) <= SizeT.size (inc_graph_ o') /\
  (goal_conf_factor_idx_ o' = goal_conf_factor_idx_ o \/
   goal_conf_factor_idx_ o' < SizeT.size (inc_graph_ o')) /\
  (goal_vel_factor_idx_ o' = goal_vel_factor_idx_ o \/
   goal_vel_factor_idx_ o' < SizeT.size (inc_graph_ o')).
Proof. apply build_loop_idx. Qed.

(** *** The cache along a sequence of calls *)

Lemma call_keeps_cache (c : Call) o :
  caches_goal_idx c = false ->
  goal_conf_factor_idx_ (call c o) = goal_conf_factor_idx_ o /\
  goal_vel_factor_idx_ (call c o) = goal_vel_factor_idx_ o.
Proof.
  destruct c; cbn [call caches_goal_idx]; try discriminate; intros _.
  - split; reflexivity.
  - rewrite update_effect. split; reflexivity.
  - rewrite fixConfigAndVel_effect. split; reflexivity.
Qed.

Lemma last_cached_current (cs : list Call) o :
  last_cached cs o (goal_conf_factor_idx_ o, goal_vel_factor_idx_ o) =
  (goal_conf_factor_idx_ (calls cs o), goal_vel_factor_idx_ (calls cs o)).
Proof.
  revert o. induction cs as [|c cs IH]; intros o; [reflexivity|].
  cbn [last_cached]. unfold calls. cbn [foldl]. fold (calls cs (call c o)).
  destruct (caches_goal_idx c) eqn:E.
  - apply IH.
  - destruct (call_keeps_cache c o E) as [<- <-]. apply IH.
Qed.

(** *** The store bound along a sequence of calls *)

Lemma call_invariant `{!AppendOnly S} (c : Call) o :
  store_size_after_update (call c o) <= SizeT.modulus ->
  store_size_after_update o <= store_size_after_update (call c o) /\
  (removals_in_store o /\ cache_in_store o ->
   removals_in_store (call c o) /\ cache_in_store (call c o)).
Proof.
  unfold removals_in_store, cache_in_store, store_size_after_update.
  destruct c as [sc sv gc gv|v| |gc gv|i cf vf]; cbn [call].
  - destruct (initFactorGraph_frame sc sv gc gv o) as (_&_&_& -> &_&_& ->).
    intros Hfit.
    destruct (initFactorGraph_idx sc sv gc gv o) as (Hle & Hc & Hv); [lia|].
    split; [lia|]. intros (Hr & Hic & Hiv). split; [|split].
    + eapply Forall_impl; [exact Hr|]. simpl. intros. lia.
    + destruct Hc as [-> | ?]; lia.
    + destruct Hv as [-> | ?]; lia.
  - unfold initValues. simpl. intros _. split; [lia|]. tauto.
  - rewrite update_effect. cbv zeta. simpl.
    rewrite isam_update_size. autorewrite with size_t.
    intros _. split; [lia|]. intros (_ & Hic & Hiv).
    split; [constructor|]. split; lia.
  - rewrite changeGoalConfigAndVel_effect. cbv zeta. simpl.
    autorewrite with size_t. intros Hfit. split; [lia|].
    intros (Hr & Hic & Hiv).
    rewrite !SizeTFacts.sub_add_1 by (autorewrite with size_t; lia).
    autorewrite with size_t. split; [|split; lia].
    apply Forall_app. split.
    + eapply Forall_impl; [exact Hr|]. simpl. intros. lia.
    + repeat first [apply List.Forall_nil | apply List.Forall_cons]; lia.
  - rewrite fixConfigAndVel_effect. simpl.
    autorewrite with size_t. intros Hfit. split; [lia|].
    intros (Hr & Hic & Hiv). split; [|split; lia].
    eapply Forall_impl; [exact Hr|]. simpl. intros. lia.
Qed.

Lemma calls_invariant `{!AppendOnly S} (cs : list Call) arm sdf st :
  let o := calls cs (ISAM2TrajOptimizer_new arm sdf st) in
  store_size_after_update o <= SizeT.modulus ->
  removals_in_store o /\ cache_in_store o.
Proof.
  cbv zeta. induction cs as [|c cs IH] using rev_ind.
  - intros _. unfold removals_in_store, cache_in_store. simpl.
    split; [constructor|]. split; lia.
  - rewrite calls_snoc. intros Hfit.
    destruct (call_invariant c _ Hfit) as (Hle & Hstep).
    apply Hstep, IH. lia.
Qed.

End Effects.

(** ** The store of slots only grows *)

#[export] Instance slot_store_append_only {D : Domain} :
  AppendOnly (slot_store_solver (D := D)).
Proof.
  split; [reflexivity|].
  intros s g v r. simpl. unfold slot_store_update. cbn [slots].
  assert (H : forall sl : list (option Factor),
             length (foldl (fun sl i => <[N.to_nat i := None]> sl) sl r)
             = length sl).
  { induction r as [|i r IH]; intros sl; [reflexivity|].
    cbn [foldl]. rewrite IH, length_insert. reflexivity. }
  unfold SizeT.size. rewrite H, length_app, length_fmap. lia.
Qed.

(** * The claims *)

Section Claims.

Context {D : Domain} {S : Solver D}.

Implicit Types o : ISAM2TrajOptimizer D S.

(** C1.  [changeGoalConfigAndVel] appends the new goal pose factor and
    caches, for it, the size of the solver's committed store plus the length
    the pending graph has right after the append, minus one; it then does
    the same for the goal velocity factor.  As long as the sum fits size_t,
    each cached index is the committed size plus the position of its factor
    in the pending graph. *)
Theorem changeGoal_caches_committed_plus_position gc gv o :
  let st := setting_ o in
  let committed := isam_factors_size (isam_ o) in
  let pp := PriorFactorPose (Symbol "x" (total_step st)) gc (conf_prior_model st) in
  let pv := PriorFactorVelocity (Symbol "v" (total_step st)) gv (vel_prior_model st) in
  let o' := changeGoalConfigAndVel gc gv o in
  committed + SizeT.size (inc_graph_ o) + 2 <= SizeT.modulus ->
  isam_ o' = isam_ o /\
  inc_graph_ o' = inc_graph_ o ++ [pp; pv] /\
  goal_conf_factor_idx_ o' = committed + SizeT.size (inc_graph_ o ++ [pp]) - 1 /\
  goal_vel_factor_idx_ o' = committed + SizeT.size (inc_graph_ o ++ [pp; pv]) - 1 /\
  goal_conf_factor_idx_ o' = committed + N.of_nat (length (inc_graph_ o)) /\
  inc_graph_ o' !! length (inc_graph_ o) = Some pp /\
  goal_vel_factor_idx_ o' = committed + N.of_nat (length (inc_graph_ o) + 1) /\
  inc_graph_ o' !! (length (inc_graph_ o) + 1)%nat = Some pv.
Proof.
  intros st committed pp pv o' Hfit. subst o'.
  rewrite changeGoalConfigAndVel_effect. cbv zeta. simpl.
  fold st committed pp pv.
  assert (Hc : SizeT.sub (SizeT.add committed (SizeT.size (inc_graph_ o ++ [pp]))) 1
               = committed + SizeT.size (inc_graph_ o ++ [pp]) - 1).
  { apply SizeTFacts.sub_add_1.
    rewrite SizeTFacts.size_app, SizeTFacts.size_cons, SizeTFacts.size_nil. lia. }
  assert (Hv : SizeT.sub (SizeT.add committed (SizeT.size (inc_graph_ o ++ [pp; pv]))) 1
               = committed + SizeT.size (inc_graph_ o ++ [pp; pv]) - 1).
  { apply SizeTFacts.sub_add_1.
    rewrite SizeTFacts.size_app, !SizeTFacts.size_cons, SizeTFacts.size_nil. lia. }
  rewrite Hc, Hv.
  rewrite !SizeTFacts.size_app, !SizeTFacts.size_cons, SizeTFacts.size_nil.
  unfold SizeT.size.
  repeat split; try lia.
  - rewrite lookup_app_r by lia. rewrite Nat.sub_diag. reflexivity.
  - rewrite lookup_app_r by lia.
    replace (length (inc_graph_ o) + 1 - length (inc_graph_ o))%nat with 1%nat by lia.
    reflexivity.
Qed.

(** C5.  Whatever calls came before, after a call of [update] the pending
    factors, the pending initial values and the pending removals are all
    empty. *)
Theorem update_empties_pending (cs : list Call) o :
  let o' := calls (cs ++ [CallUpdate]) o in
  inc_graph_ o' = [] /\ init_values_ o' = ∅ /\ removed_factor_index_ o' = [].
Proof.
  cbv zeta. rewrite calls_snoc. cbn [call]. rewrite update_effect. repeat split.
Qed.

(** C9.  For a step index within 0..total_step, [fixConfigAndVel] appends
    to the pending factors one pose prior and one velocity prior on the keys
    of that step, with the configured prior noise models, and changes no
    other member: pending removals, cached goal indices, pending values,
    estimate, solver and setting stay as they were. *)
Theorem fixConfigAndVel_appends_two_priors (i : N) c v o :
  i <= total_step (setting_ o) ->
  let o' := fixConfigAndVel i c v o in
  inc_graph_ o' =
    inc_graph_ o ++
    [PriorFactorPose (Symbol "x" i) c (conf_prior_model (setting_ o));
     PriorFactorVelocity (Symbol "v" i) v (vel_prior_model (setting_ o))] /\
  removed_factor_index_ o' = removed_factor_index_ o /\
  goal_conf_factor_idx_ o' = goal_conf_factor_idx_ o /\
  goal_vel_factor_idx_ o' = goal_vel_factor_idx_ o /\
  init_values_ o' = init_values_ o /\
  opt_values_ o' = opt_values_ o /\
  isam_ o' = isam_ o /\
  setting_ o' = setting_ o /\ arm_ o' = arm_ o /\ sdf_ o' = sdf_ o.
Proof.
  intros _ o'. subst o'. rewrite fixConfigAndVel_effect. repeat split.
Qed.

(** C6 (amended).  [fixConfigAndVel] has no range check: for a step index
    above total_step it returns as for any other index, the pending factors
    extended by the two priors on the keys of that index, and every other
    member as it was. *)
Theorem fixConfigAndVel_out_of_range_appends (i : N) c v o :
  total_step (setting_ o) < i ->
  let o' := fixConfigAndVel i c v o in
  inc_graph_ o' =
    inc_graph_ o ++
    [PriorFactorPose (Symbol "x" i) c (conf_prior_model (setting_ o));
     PriorFactorVelocity (Symbol "v" i) v (vel_prior_model (setting_ o))] /\
  removed_factor_index_ o' = removed_factor_index_ o /\
  goal_conf_factor_idx_ o' = goal_conf_factor_idx_ o /\
  goal_vel_factor_idx_ o' = goal_vel_factor_idx_ o /\
  init_values_ o' = init_values_ o /\
  opt_values_ o' = opt_values_ o /\
  isam_ o' = isam_ o.
Proof.
  intros _ o'. subst o'. rewrite fixConfigAndVel_effect. repeat split.
Qed.

(** C10.  [changeGoalConfigAndVel] leaves the pending initial values and
    the cached estimate as they were, and with them the solver, the setting,
    the robot and the field: only the pending factors, the pending removals
    and the two cached indices can differ. *)
Theorem changeGoal_keeps_values_and_estimate gc gv o :
  let o' := changeGoalConfigAndVel gc gv o in
  init_values_ o' = init_values_ o /\
  opt_values_ o' = opt_values_ o /\
  isam_ o' = isam_ o /\
  setting_ o' = setting_ o /\ arm_ o' = arm_ o /\ sdf_ o' = sdf_ o.
Proof.
  cbv zeta. rewrite changeGoalConfigAndVel_effect. repeat split.
Qed.

(** C7 (amended).  With a total step count of zero [initFactorGraph] is not
    rejected: its loop runs once, for step 0, and appends the two start
    priors and one obstacle factor; the cached goal indices and every
    member other than the pending factors stay as they were. *)
Theorem initFactorGraph_zero_steps sc sv gc gv o :
  total_step (setting_ o) = 0 ->
  let st := setting_ o in
  let o' := initFactorGraph sc sv gc gv o in
  inc_graph_ o' =
    inc_graph_ o ++
    [PriorFactorPose (Symbol "x" 0) sc (conf_prior_model st);
     PriorFactorVelocity (Symbol "v" 0) sv (vel_prior_model st);
     OBS_FACTOR (Symbol "x" 0) (arm_ o) (sdf_ o) (cost_sigma st) (epsilon st)] /\
  goal_conf_factor_idx_ o' = goal_conf_factor_idx_ o /\
  goal_vel_factor_idx_ o' = goal_vel_factor_idx_ o /\
  same_but_graph_and_cache o o'.
Proof.
  intros H0 st o'. subst o'.
  assert (E : initFactorGraph sc sv gc gv o =
              build_step sc sv gc gv (delta_t_of st) (inter_dt_of st) o 0).
  { unfold initFactorGraph. rewrite H0. reflexivity. }
  rewrite E, build_step_effect. cbv zeta. cbn [N.eqb negb andb].
  rewrite step_factors_first. repeat split.
Qed.

(** C2.  Along any sequence of calls, a call of [changeGoalConfigAndVel]
    pushes exactly two indices onto the pending removals, the goal pose
    index first and the goal velocity index second, and they are the pair
    the cache received from the last earlier call that assigns it, a
    [changeGoalConfigAndVel] or the build ([update], [initValues] and
    [fixConfigAndVel] in between leave it alone); without such a call they
    are the pair the sequence started from. *)
Theorem changeGoal_pushes_last_cached (cs : list Call) gc gv o :
  let before := calls cs o in
  let cached :=
    last_cached cs o (goal_conf_factor_idx_ o, goal_vel_factor_idx_ o) in
  removed_factor_index_ (changeGoalConfigAndVel gc gv before) =
  removed_factor_index_ before ++ [fst cached; snd cached].
Proof.
  cbv zeta. rewrite last_cached_current, changeGoalConfigAndVel_effect.
  reflexivity.
Qed.

(** C3 (amended).  In every state reached from a fresh optimizer by calls
    of its member functions, with a solver whose store only grows and sizes
    that fit size_t, every pending removal is smaller than the committed
    size plus the number of pending factors: it names a slot the store
    holds once [update] has appended the pending batch, a factor committed
    by an earlier update or a factor of this batch. *)
Theorem removals_name_store_slots `{!AppendOnly S} (cs : list Call) arm sdf st :
  let o := calls cs (ISAM2TrajOptimizer_new arm sdf st) in
  store_size_after_update o <= SizeT.modulus ->
  removals_in_store o.
Proof.
  intros o Hfit. apply (calls_invariant cs arm sdf st Hfit).
Qed.

(** C4 (amended).  For a total step count N >= 1 (and any
    obs_check_inter), the build appends a sequence whose prior factors are,
    in this order, the two start priors on the keys of step 0 and the two
    goal priors on the keys of step N, and which holds N+1 obstacle
    factors, N smoothness (GP) factors and N * obs_check_inter interpolated
    obstacle factors: 2 + 2 + (N+1) + N + N * obs_check_inter factors in
    all, which is 3 more than [spec_stated_total]. *)
Theorem initFactorGraph_census sc sv gc gv o :
  1 <= total_step (setting_ o) ->
  let st := setting_ o in
  let n := total_step st in
  exists emitted : NonlinearFactorGraph,
    inc_graph_ (initFactorGraph sc sv gc gv o) = inc_graph_ o ++ emitted /\
    List.filter is_prior emitted =
      [PriorFactorPose (Symbol "x" 0) sc (conf_prior_model st);
       PriorFactorVelocity (Symbol "v" 0) sv (vel_prior_model st);
       PriorFactorPose (Symbol "x" n) gc (conf_prior_model st);
       PriorFactorVelocity (Symbol "v" n) gv (vel_prior_model st)] /\
    count_factors is_obstacle emitted = n + 1 /\
    count_factors is_smoothness emitted = n /\
    count_factors is_interpolated emitted = n * obs_check_inter st /\
    SizeT.size emitted = 2 + 2 + (n + 1) + n + n * obs_check_inter st.
Proof.
  intros HN st n. change (1 <= total_step st) in HN. subst n.
  exists (build_factors st (arm_ o) (sdf_ o) sc sv gc gv).
  split; [apply initFactorGraph_inc_graph|].
  destruct (build_factors_rounds st (arm_ o) (sdf_ o) sc sv gc gv HN)
    as (-> & _ & Hbetween & Hlen).
  destruct (middle_rounds_census st (arm_ o) (sdf_ o) sc sv gc gv
              (delta_t_of st) (inter_dt_of st) _ Hbetween)
    as (M1 & M2 & M3 & M4 & M5).
  destruct (step_factors_last_census st (arm_ o) (sdf_ o) sc sv gc gv
              (delta_t_of st) (inter_dt_of st) HN)
    as (L1 & L2 & L3 & L4 & L5).
  cbv zeta in *.
  rewrite !List.filter_app, !count_factors_app, !SizeTFacts.size_app.
  rewrite M1, M2, M3, M4, M5, L1, L2, L3, L4, L5, Hlen.
  rewrite step_factors_first.
  repeat split; try reflexivity; unfold count_factors; simpl;
    autorewrite with size_t; nia.
Qed.

(** C8.  In the initial build, from a fresh optimizer and with N >= 1, the
    cached goal pose index is the position of the goal pose prior in the
    sequence the build emits, and the cached goal velocity index the
    position of the goal velocity prior, the next one; no other factor of
    the sequence is a prior on a key of step N. *)
Theorem initFactorGraph_caches_goal_positions arm sdf st sc sv gc gv :
  1 <= total_step st ->
  let o' := initFactorGraph sc sv gc gv (ISAM2TrajOptimizer_new arm sdf st) in
  let pp := PriorFactorPose (Symbol "x" (total_step st)) gc (conf_prior_model st) in
  let pv := PriorFactorVelocity (Symbol "v" (total_step st)) gv (vel_prior_model st) in
  SizeT.size (inc_graph_ o') <= SizeT.modulus ->
  exists before after : NonlinearFactorGraph,
    inc_graph_ o' = before ++ [pp; pv] ++ after /\
    Forall (fun f => is_prior_at (total_step st) f = false) (before ++ after) /\
    goal_conf_factor_idx_ o' = SizeT.size before /\
    goal_vel_factor_idx_ o' = SizeT.size before + 1 /\
    inc_graph_ o' !! N.to_nat (goal_conf_factor_idx_ o') = Some pp /\
    inc_graph_ o' !! N.to_nat (goal_vel_factor_idx_ o') = Some pv /\
    SizeT.size before = 3 + (total_step st - 1) * (obs_check_inter st + 2).
Proof.
  intros HN o' pp pv Hfit.
  destruct (initFactorGraph_goal_positions sc sv gc gv
              (ISAM2TrajOptimizer_new arm sdf st) HN Hfit)
    as (before & after & Hg & Hno & Hsz & Hc & Hv).
  fold o' in Hg, Hc, Hv. cbn [ISAM2TrajOptimizer_new setting_ inc_graph_] in *.
  fold pp pv in Hg.
  rewrite app_nil_l in Hg. rewrite SizeTFacts.size_nil, N.add_0_l in Hc, Hv.
  exists before, after. rewrite Hc, Hv, Hg. repeat split; try assumption.
  - unfold SizeT.size. rewrite Nat2N.id, lookup_app_r by lia.
    rewrite Nat.sub_diag. reflexivity.
  - unfold SizeT.size. rewrite lookup_app_r by lia.
    replace (N.to_nat (N.of_nat (length before) + 1) - length before)%nat
      with 1%nat by lia.
    reflexivity.
Qed.

End Claims.

(** * More on the build *)

Section Build.

Context {D : Domain} {S : Solver D}.

Implicit Types o : ISAM2TrajOptimizer D S.

Lemma filter_concat_map {A : Type} (p : Factor -> bool) (F : A -> list Factor)
    (l : list A) :
  List.filter p (concat (map F l)) = concat (map (fun i => List.filter p (F i)) l).
Proof.
  induction l as [|i l IH]; [reflexivity|].
  simpl. rewrite List.filter_app, IH. reflexivity.
Qed.

Lemma concat_map_ext {A B : Type} (F G : A -> list B) (l : list A) :
  Forall (fun i => F i = G i) l -> concat (map F l) = concat (map G l).
Proof.
  induction 1 as [|i l Hi _ IH]; [reflexivity|].
  simpl. rewrite Hi, IH. reflexivity.
Qed.

Lemma concat_map_singleton {A B : Type} (G : A -> B) (l : list A) :
  concat (map (fun i => [G i]) l) = G <$> l.
Proof.
  induction l as [|i l IH]; [reflexivity|].
  simpl. rewrite IH. reflexivity.
Qed.

Lemma range_from_zero (n : nat) :
  SizeT.range 0 (n + 1) = 0 :: SizeT.range 1 n.
Proof.
  replace (n + 1)%nat with (Datatypes.S n) by lia.
  rewrite SizeTFacts.range_cons. reflexivity.
Qed.

(** What each kind of factor one round of the loop contributes. *)
Lemma step_factors_obstacle (st : TrajOptimizerSetting) arm sdf sc sv gc gv dt idt i :
  List.filter is_obstacle (step_factors st arm sdf sc sv gc gv dt idt i) =
  [OBS_FACTOR (Symbol "x" i) arm sdf (cost_sigma st) (epsilon st)].
Proof.
  unfold step_factors.
  destruct (i =? 0); destruct (i =? total_step st); destruct (0 <? i);
    rewrite !List.filter_app;
    rewrite ?(interpolated_factors_filter is_obstacle false) by reflexivity;
    reflexivity.
Qed.

Lemma step_factors_smoothness (st : TrajOptimizerSetting) arm sdf sc sv gc gv dt idt i :
  0 < i ->
  List.filter is_smoothness (step_factors st arm sdf sc sv gc gv dt idt i) =
  [GP (Symbol "x" (SizeT.sub i 1)) (Symbol "v" (SizeT.sub i 1))
      (Symbol "x" i) (Symbol "v" i) dt (Qc_model st)].
Proof.
  intros Hpos. unfold step_factors.
  destruct (N.ltb_spec 0 i); [|lia].
  destruct (i =? 0); destruct (i =? total_step st);
    rewrite !List.filter_app;
    rewrite ?(interpolated_factors_filter is_smoothness false) by reflexivity;
    reflexivity.
Qed.

Lemma step_factors_interpolated (st : TrajOptimizerSetting) arm sdf sc sv gc gv dt idt i :
  0 < i ->
  List.filter is_interpolated (step_factors st arm sdf sc sv gc gv dt idt i) =
  interpolated_factors st arm sdf
    (Symbol "x" (SizeT.sub i 1)) (Symbol "v" (SizeT.sub i 1))
    (Symbol "x" i) (Symbol "v" i) dt idt.
Proof.
  intros Hpos. unfold step_factors.
  destruct (N.ltb_spec 0 i); [|lia].
  destruct (i =? 0); destruct (i =? total_step st);
    rewrite !List.filter_app;
    rewrite ?(interpolated_factors_filter is_interpolated true) by reflexivity;
    simpl; rewrite ?app_nil_r; reflexivity.
Qed.

Lemma step_factors_first_no_links (st : TrajOptimizerSetting) arm sdf sc sv gc gv dt idt
    (p : Factor -> bool) :
  p = is_smoothness \/ p = is_interpolated ->
  List.filter p (step_factors st arm sdf sc sv gc gv dt idt 0) = [].
Proof. intros [-> | ->]; reflexivity. Qed.

Lemma range_one_bounds (n : nat) (bound : N) :
  N.of_nat n <= bound ->
  Forall (fun i => 1 <= i <= bound) (SizeT.range 1 n).
Proof.
  intros Hn. apply Forall_forall. intros i Hi.
  apply SizeTFacts.range_bounds in Hi. lia.
Qed.

(** X2.  The obstacle factors of the build are, in this order, one on each pose
    key x0, x1, ..., xN, all with the robot, the field and the cost
    parameters of the optimizer; this for every total step count, zero
    included. *)
Theorem initFactorGraph_obstacle_factors sc sv gc gv o :
  let st := setting_ o in
  exists emitted : NonlinearFactorGraph,
    inc_graph_ (initFactorGraph sc sv gc gv o) = inc_graph_ o ++ emitted /\
    List.filter is_obstacle emitted =
      (fun i => OBS_FACTOR (Symbol "x" i) (arm_ o) (sdf_ o)
                  (cost_sigma st) (epsilon st))
        <$> SizeT.range 0 (N.to_nat (total_step st) + 1).
Proof.
  intros st. exists (build_factors st (arm_ o) (sdf_ o) sc sv gc gv).
  split; [apply initFactorGraph_inc_graph|].
  unfold build_factors. rewrite filter_concat_map.
  rewrite (concat_map_ext _
             (fun i => [OBS_FACTOR (Symbol "x" i) (arm_ o) (sdf_ o)
                          (cost_sigma st) (epsilon st)])).
  - apply concat_map_singleton.
  - apply Forall_forall. intros i _. apply step_factors_obstacle.
Qed.

(** X3.  The smoothness factors of the build are, in this order, one GP factor
    for every step i = 1..N, on the pose and velocity keys of step i-1 and
    of step i, with delta_t = total_time / double(total_step) and the Qc
    model of the setting. *)
Theorem initFactorGraph_smoothness_factors sc sv gc gv o :
  total_step (setting_ o) <= SizeT.modulus ->
  let st := setting_ o in
  let delta_t := double_div (total_time st) (double_of_size_t (total_step st)) in
  exists emitted : NonlinearFactorGraph,
    inc_graph_ (initFactorGraph sc sv gc gv o) = inc_graph_ o ++ emitted /\
    List.filter is_smoothness emitted =
      (fun i => GP (Symbol "x" (i - 1)) (Symbol "v" (i - 1))
                   (Symbol "x" i) (Symbol "v" i) delta_t (Qc_model st))
        <$> SizeT.range 1 (N.to_nat (total_step st)).
Proof.
  intros Hfit st delta_t. change (total_step st <= SizeT.modulus) in Hfit.
  exists (build_factors st (arm_ o) (sdf_ o) sc sv gc gv).
  split; [apply initFactorGraph_inc_graph|].
  unfold build_factors. rewrite filter_concat_map, range_from_zero.
  cbn [map concat]. rewrite step_factors_first_no_links by (left; reflexivity).
  rewrite app_nil_l.
  rewrite (concat_map_ext _
             (fun i => [GP (Symbol "x" (i - 1)) (Symbol "v" (i - 1))
                           (Symbol "x" i) (Symbol "v" i) delta_t (Qc_model st)])).
  - apply concat_map_singleton.
  - eapply Forall_impl; [apply (range_one_bounds _ (total_step st)); lia|].
    intros i Hi. cbv beta in *.
    rewrite step_factors_smoothness by lia.
    rewrite SizeTFacts.sub_1 by (unfold SizeT.modulus in *; lia).
    reflexivity.
Qed.

(** X4.  The interpolated obstacle factors of the build are, in this order and
    for every step i = 1..N, obs_check_inter factors on the keys of step
    i-1 and of step i, the j-th of them (j = 1..obs_check_inter) with
    tau = inter_dt * double(j), where inter_dt = delta_t /
    double(obs_check_inter + 1). *)
Theorem initFactorGraph_interpolated_factors sc sv gc gv o :
  total_step (setting_ o) <= SizeT.modulus ->
  let st := setting_ o in
  let delta_t := double_div (total_time st) (double_of_size_t (total_step st)) in
  let inter_dt :=
    double_div delta_t (double_of_size_t (SizeT.add (obs_check_inter st) 1)) in
  exists emitted : NonlinearFactorGraph,
    inc_graph_ (initFactorGraph sc sv gc gv o) = inc_graph_ o ++ emitted /\
    List.filter is_interpolated emitted =
      concat (map
        (fun i =>
           (fun j => OBS_FACTOR_GP (Symbol "x" (i - 1)) (Symbol "v" (i - 1))
                       (Symbol "x" i) (Symbol "v" i) (arm_ o) (sdf_ o)
                       (cost_sigma st) (epsilon st) (Qc_model st) delta_t
                       (double_mul inter_dt (double_of_size_t j)))
             <$> SizeT.range 1 (N.to_nat (obs_check_inter st)))
        (SizeT.range 1 (N.to_nat (total_step st)))).
Proof.
  intros Hfit st delta_t inter_dt. change (total_step st <= SizeT.modulus) in Hfit.
  exists (build_factors st (arm_ o) (sdf_ o) sc sv gc gv).
  split; [apply initFactorGraph_inc_graph|].
  unfold build_factors. rewrite filter_concat_map, range_from_zero.
  cbn [map concat]. rewrite step_factors_first_no_links by (right; reflexivity).
  rewrite app_nil_l.
  apply concat_map_ext.
  eapply Forall_impl; [apply (range_one_bounds _ (total_step st)); lia|].
  intros i Hi. cbv beta in *.
  rewrite step_factors_interpolated by lia.
  rewrite SizeTFacts.sub_1 by (unfold SizeT.modulus in *; lia).
  reflexivity.
Qed.

(** *** The keys the build refers to *)

Lemma elem_of_concat_map {A B : Type} (F : A -> list B) (l : list A) (x : B) :
  x ∈ concat (map F l) <-> exists i, i ∈ l /\ x ∈ F i.
Proof.
  induction l as [|a l IH]; simpl.
  - split; [intros H; inversion H | intros (i & Hi & _); inversion Hi].
  - rewrite elem_of_app, IH. split.
    + intros [H | (i & Hi & Hx)].
      * exists a. split; [left | assumption].
      * exists i. split; [right; assumption | assumption].
    + intros (i & Hi & Hx). apply elem_of_cons in Hi as [-> | Hi].
      * left. assumption.
      * right. exists i. split; assumption.
Qed.

Lemma range_elem (lo : N) (n : nat) (i : N) :
  lo <= i < lo + N.of_nat n -> i ∈ SizeT.range lo n.
Proof.
  intros Hi. unfold SizeT.range. apply list_elem_of_fmap.
  exists (N.to_nat (i - lo)). split; [lia|]. apply elem_of_seq. lia.
Qed.

Lemma interpolated_factors_keys (st : TrajOptimizerSetting) arm sdf lp lv pk vk dt idt f :
  f ∈ interpolated_factors st arm sdf lp lv pk vk dt idt ->
  factor_keys f = [lp; lv; pk; vk].
Proof.
  unfold interpolated_factors. intros H.
  apply list_elem_of_fmap in H as (j & -> & _). reflexivity.
Qed.

Lemma filter_elem (p : Factor -> bool) (g : NonlinearFactorGraph) (f : Factor) :
  f ∈ List.filter p g -> f ∈ g.
Proof.
  rewrite !list_elem_of_In. intros H. apply List.filter_In in H. tauto.
Qed.

Ltac split_membership :=
  repeat match goal with
    | H : _ \/ _ |- _ => destruct H
    | H : _ ∈ _ ++ _ |- _ => apply elem_of_app in H
    | H : _ ∈ _ :: _ |- _ => apply elem_of_cons in H
    | H : _ ∈ [] |- _ => apply elem_of_nil in H; contradiction
    | H : ?f ∈ interpolated_factors _ _ _ _ _ _ _ _ _ |- _ =>
        apply interpolated_factors_keys in H
    end.

Lemma step_factors_keys (st : TrajOptimizerSetting) arm sdf sc sv gc gv dt idt
    (i : N) (f : Factor) (k : Key) :
  i <= total_step st -> total_step st <= SizeT.modulus ->
  f ∈ step_factors st arm sdf sc sv gc gv dt idt i -> k ∈ factor_keys f ->
  (chr k = "x"%char \/ chr k = "v"%char) /\ index k <= total_step st.
Proof.
  intros Hi Hfit Hf Hk. unfold step_factors in Hf.
  assert (Hsub : 0 < i -> SizeT.sub i 1 = i - 1).
  { intros. apply SizeTFacts.sub_1. unfold SizeT.modulus in *. lia. }
  destruct (N.eqb_spec i 0); destruct (N.eqb_spec i (total_step st));
    destruct (N.ltb_spec 0 i); try lia;
    split_membership; subst; try rewrite Hsub in * by assumption;
    try match goal with H : factor_keys _ = _ |- _ => rewrite H in Hk end;
    cbn [factor_keys] in Hk; split_membership; subst; cbn [chr index];
    (split; [auto | lia]).
Qed.

(** X1.  The variables of the built graph are exactly the pose keys x0..xN and
    the velocity keys v0..vN: every key a factor of the build is
    constructed on is one of them, and each of them is used by some
    factor. *)
Theorem initFactorGraph_keys sc sv gc gv o :
  total_step (setting_ o) <= SizeT.modulus ->
  exists emitted : NonlinearFactorGraph,
    inc_graph_ (initFactorGraph sc sv gc gv o) = inc_graph_ o ++ emitted /\
    forall k : Key,
      (exists f, f ∈ emitted /\ k ∈ factor_keys f) <->
      ((chr k = "x"%char \/ chr k = "v"%char) /\
       index k <= total_step (setting_ o)).
Proof.
  intros Hfit. set (st := setting_ o) in *.
  exists (build_factors st (arm_ o) (sdf_ o) sc sv gc gv).
  split; [apply initFactorGraph_inc_graph|].
  intros k. unfold build_factors. split.
  - intros (f & Hf & Hk). apply elem_of_concat_map in Hf as (i & Hi & Hf).
    apply SizeTFacts.range_bounds in Hi.
    eapply step_factors_keys; [| exact Hfit | exact Hf | exact Hk]. lia.
  - intros (Hc & Hj). destruct k as [c j]. cbn [chr index] in *.
    assert (Hin : j ∈ SizeT.range 0 (N.to_nat (total_step st) + 1))
      by (apply range_elem; lia).
    destruct Hc as [-> | ->].
    + exists (OBS_FACTOR (Symbol "x" j) (arm_ o) (sdf_ o) (cost_sigma st) (epsilon st)).
      split; [|left].
      apply elem_of_concat_map. exists j. split; [exact Hin|].
      apply (filter_elem is_obstacle). rewrite step_factors_obstacle. left.
    + destruct (N.eq_dec j 0) as [-> | Hne].
      * exists (PriorFactorVelocity (Symbol "v" 0) sv (vel_prior_model st)).
        split; [|left].
        apply elem_of_concat_map. exists 0. split; [exact Hin|].
        rewrite step_factors_first. right. left.
      * exists (GP (Symbol "x" (SizeT.sub j 1)) (Symbol "v" (SizeT.sub j 1))
                   (Symbol "x" j) (Symbol "v" j) (delta_t_of st) (Qc_model st)).
        split; [|cbn [factor_keys]; do 3 right; left].
        apply elem_of_concat_map. exists j. split; [exact Hin|].
        apply (filter_elem is_smoothness).
        rewrite step_factors_smoothness by lia. left.
Qed.

(** X5.  The build assigns nothing but the pending factors and the two cached
    indices: it queues no removal, supplies no initial value, and leaves
    the estimate, the solver and the setting as they are. *)
Theorem initFactorGraph_keeps_other_members sc sv gc gv o :
  let o' := initFactorGraph sc sv gc gv o in
  removed_factor_index_ o' = removed_factor_index_ o /\
  init_values_ o' = init_values_ o /\
  opt_values_ o' = opt_values_ o /\
  isam_ o' = isam_ o /\
  setting_ o' = setting_ o /\ arm_ o' = arm_ o /\ sdf_ o' = sdf_ o.
Proof.
  cbv zeta.
  destruct (initFactorGraph_frame sc sv gc gv o) as (Hs & Ha & Hd & Hi & Hv & Ho & Hr).
  repeat split; assumption.
Qed.

Lemma initFactorGraph_positions_lookup sc sv gc gv o :
  1 <= total_step (setting_ o) ->
  let st := setting_ o in
  let o' := initFactorGraph sc sv gc gv o in
  SizeT.size (inc_graph_ o') <= SizeT.modulus ->
  goal_conf_factor_idx_ o' =
    SizeT.size (inc_graph_ o) + 3 + (total_step st - 1) * (obs_check_inter st + 2) /\
  goal_vel_factor_idx_ o' = goal_conf_factor_idx_ o' + 1 /\
  inc_graph_ o' !! N.to_nat (goal_conf_factor_idx_ o') =
    Some (PriorFactorPose (Symbol "x" (total_step st)) gc (conf_prior_model st)) /\
  inc_graph_ o' !! N.to_nat (goal_vel_factor_idx_ o') =
    Some (PriorFactorVelocity (Symbol "v" (total_step st)) gv (vel_prior_model st)).
Proof.
  intros HN st o' Hfit.
  destruct (initFactorGraph_goal_positions sc sv gc gv o HN Hfit)
    as (before & after & Hg & _ & Hsz & Hc & Hv).
  fold st o' in Hg, Hsz, Hc, Hv.
  rewrite Hc, Hv, Hg, app_assoc. unfold SizeT.size in *.
  repeat split; try lia.
  - rewrite lookup_app_r by (rewrite length_app; lia).
    replace (N.to_nat (N.of_nat (length (inc_graph_ o)) + N.of_nat (length before))
             - length (inc_graph_ o ++ before))%nat with 0%nat
      by (rewrite length_app; lia).
    reflexivity.
  - rewrite lookup_app_r by (rewrite length_app; lia).
    replace (N.to_nat (N.of_nat (length (inc_graph_ o)) + N.of_nat (length before) + 1)
             - length (inc_graph_ o ++ before))%nat with 1%nat
      by (rewrite length_app; lia).
    reflexivity.
Qed.

(** X6.  Whatever the optimizer holds when the build is called (N >= 1), the
    indices it caches are positions in the pending factors: the number of
    factors pending before the call plus 3 + (N-1) * (obs_check_inter+2),
    and the next one.  The number of factors the solver has committed does
    not enter. *)
Theorem initFactorGraph_caches_pending_positions sc sv gc gv o :
  1 <= total_step (setting_ o) ->
  let st := setting_ o in
  let o' := initFactorGraph sc sv gc gv o in
  SizeT.size (inc_graph_ o') <= SizeT.modulus ->
  goal_conf_factor_idx_ o' =
    SizeT.size (inc_graph_ o) + 3 + (total_step st - 1) * (obs_check_inter st + 2) /\
  goal_vel_factor_idx_ o' = goal_conf_factor_idx_ o' + 1 /\
  inc_graph_ o' !! N.to_nat (goal_conf_factor_idx_ o') =
    Some (PriorFactorPose (Symbol "x" (total_step st)) gc (conf_prior_model st)) /\
  inc_graph_ o' !! N.to_nat (goal_vel_factor_idx_ o') =
    Some (PriorFactorVelocity (Symbol "v" (total_step st)) gv (vel_prior_model st)).
Proof. apply initFactorGraph_positions_lookup. Qed.

Lemma initFactorGraph_zero_effect sc sv gc gv o :
  total_step (setting_ o) = 0 ->
  initFactorGraph sc sv gc gv o =
  set_inc_graph
    (inc_graph_ o ++
     [PriorFactorPose (Symbol "x" 0) sc (conf_prior_model (setting_ o));
      PriorFactorVelocity (Symbol "v" 0) sv (vel_prior_model (setting_ o));
      OBS_FACTOR (Symbol "x" 0) (arm_ o) (sdf_ o) (cost_sigma (setting_ o))
        (epsilon (setting_ o))]) o.
Proof.
  intros H0.
  assert (E : initFactorGraph sc sv gc gv o =
              build_step sc sv gc gv (delta_t_of (setting_ o))
                (inter_dt_of (setting_ o)) o 0).
  { unfold initFactorGraph. rewrite H0. reflexivity. }
  rewrite E, build_step_effect. cbv zeta. cbn [N.eqb negb andb].
  rewrite step_factors_first. reflexivity.
Qed.

(** X7.  With a total step count of zero the build caches nothing, so a goal
    change that follows it on a fresh optimizer queues the constructor's
    index 0 twice; index 0 is the start pose prior, and the goal priors the
    change appends are on the keys x0 and v0 of the start state. *)
Theorem zero_steps_goal_change_targets_start_prior `{!AppendOnly S}
    arm sdf st sc sv gc gv gc' gv' :
  total_step st = 0 ->
  let o := changeGoalConfigAndVel gc' gv'
             (initFactorGraph sc sv gc gv (ISAM2TrajOptimizer_new arm sdf st)) in
  removed_factor_index_ o = [0; 0] /\
  pending_at o 0 = Some (PriorFactorPose (Symbol "x" 0) sc (conf_prior_model st)) /\
  inc_graph_ o =
    [PriorFactorPose (Symbol "x" 0) sc (conf_prior_model st);
     PriorFactorVelocity (Symbol "v" 0) sv (vel_prior_model st);
     OBS_FACTOR (Symbol "x" 0) arm sdf (cost_sigma st) (epsilon st);
     PriorFactorPose (Symbol "x" 0) gc' (conf_prior_model st);
     PriorFactorVelocity (Symbol "v" 0) gv' (vel_prior_model st)].
Proof.
  intros H0 o. subst o.
  rewrite initFactorGraph_zero_effect by exact H0.
  rewrite changeGoalConfigAndVel_effect. cbv zeta.
  unfold pending_at.
  cbn [set_inc_graph ISAM2TrajOptimizer_new setting_ arm_ sdf_ isam_ inc_graph_
       removed_factor_index_ goal_conf_factor_idx_ goal_vel_factor_idx_].
  rewrite isam_new_size, H0. repeat split.
Qed.

End Build.

(** * More on goal changes and updates *)

Section Reconfiguration.

Context {D : Domain} {S : Solver D}.

Implicit Types o : ISAM2TrajOptimizer D S.

(** X8.  A goal change on an optimizer that was never built queues index 0
    twice and caches 0 for the pose prior it appends: the index it queues
    for removal is the one of its own new goal pose prior. *)
Theorem goal_change_before_build `{!AppendOnly S} arm sdf st gc gv :
  let o := changeGoalConfigAndVel gc gv (ISAM2TrajOptimizer_new arm sdf st) in
  let pp := PriorFactorPose (Symbol "x" (total_step st)) gc (conf_prior_model st) in
  let pv := PriorFactorVelocity (Symbol "v" (total_step st)) gv (vel_prior_model st) in
  removed_factor_index_ o = [0; 0] /\
  inc_graph_ o = [pp; pv] /\
  goal_conf_factor_idx_ o = 0 /\
  goal_vel_factor_idx_ o = 1 /\
  pending_at o 0 = Some pp.
Proof.
  cbv zeta. rewrite changeGoalConfigAndVel_effect. cbv zeta. unfold pending_at.
  cbn [ISAM2TrajOptimizer_new setting_ arm_ sdf_ isam_ inc_graph_
       removed_factor_index_ goal_conf_factor_idx_ goal_vel_factor_idx_].
  rewrite isam_new_size.
  rewrite !SizeTFacts.sub_add_1
    by (autorewrite with size_t; unfold SizeT.modulus; lia).
  autorewrite with size_t. repeat split.
Qed.

(** X9.  Two goal changes in a row, with no update in between: the second one
    queues for removal the indices the first one cached, which stand for
    the two priors the first one appended and are not committed yet; the
    pending factors end with the four priors, and the cache holds the
    indices of the last two. *)
Theorem goal_change_twice gc1 gv1 gc2 gv2 o :
  store_size_after_update o + 4 <= SizeT.modulus ->
  let st := setting_ o in
  let top := store_size_after_update o in
  let pp1 := PriorFactorPose (Symbol "x" (total_step st)) gc1 (conf_prior_model st) in
  let pv1 := PriorFactorVelocity (Symbol "v" (total_step st)) gv1 (vel_prior_model st) in
  let pp2 := PriorFactorPose (Symbol "x" (total_step st)) gc2 (conf_prior_model st) in
  let pv2 := PriorFactorVelocity (Symbol "v" (total_step st)) gv2 (vel_prior_model st) in
  let o2 := changeGoalConfigAndVel gc2 gv2 (changeGoalConfigAndVel gc1 gv1 o) in
  removed_factor_index_ o2 =
    removed_factor_index_ o ++
    [goal_conf_factor_idx_ o; goal_vel_factor_idx_ o; top; top + 1] /\
  inc_graph_ o2 = inc_graph_ o ++ [pp1; pv1; pp2; pv2] /\
  pending_at o2 top = Some pp1 /\
  pending_at o2 (top + 1) = Some pv1 /\
  goal_conf_factor_idx_ o2 = top + 2 /\
  goal_vel_factor_idx_ o2 = top + 3.
Proof.
  intros Hfit st top pp1 pv1 pp2 pv2 o2.
  unfold store_size_after_update in *. subst o2. rewrite !changeGoalConfigAndVel_effect. cbv zeta. unfold pending_at.
  cbn [setting_ arm_ sdf_ isam_ inc_graph_ removed_factor_index_
       goal_conf_factor_idx_ goal_vel_factor_idx_].
  fold st. fold pp1 pv1 pp2 pv2.
  rewrite !SizeTFacts.sub_add_1 by (autorewrite with size_t; lia).
  rewrite <- !app_assoc. cbn [app]. autorewrite with size_t.
  destruct (N.ltb_spec top (isam_factors_size (isam_ o))) as [Hlt|_];
    [subst top; lia|].
  destruct (N.ltb_spec (top + 1) (isam_factors_size (isam_ o))) as [Hlt|_];
    [subst top; lia|].
  replace (N.to_nat (top - isam_factors_size (isam_ o)))
    with (length (inc_graph_ o)) by (subst top; unfold SizeT.size; lia).
  replace (N.to_nat (top + 1 - isam_factors_size (isam_ o)))
    with (length (inc_graph_ o) + 1)%nat by (subst top; unfold SizeT.size; lia).
  rewrite !lookup_app_r by lia.
  rewrite Nat.sub_diag.
  replace (length (inc_graph_ o) + 1 - length (inc_graph_ o))%nat with 1%nat by lia.
  subst top. repeat split; try lia.
  f_equal. repeat (f_equal; try lia).
Qed.

(** X10.  Once anything was added, an update leaves both cached goal indices
    below the number of factors the solver has committed: from then on
    they name committed slots, until the next goal change or build. *)
Theorem update_commits_cached_indices `{!AppendOnly S} (cs : list Call) arm sdf st :
  let o := calls cs (ISAM2TrajOptimizer_new arm sdf st) in
  1 <= store_size_after_update o <= SizeT.modulus ->
  goal_conf_factor_idx_ (update o) < isam_factors_size (isam_ (update o)) /\
  goal_vel_factor_idx_ (update o) < isam_factors_size (isam_ (update o)).
Proof.
  intros o [Hpos Hfit].
  destruct (calls_invariant cs arm sdf st Hfit) as (_ & Hc & Hv).
  fold o in Hc, Hv. rewrite update_effect. cbv zeta.
  cbn [isam_ goal_conf_factor_idx_ goal_vel_factor_idx_].
  rewrite isam_update_size. unfold store_size_after_update in *. lia.
Qed.

(** X11.  The values that reach the solver are those of the last [initValues]
    before the update, an earlier call's values are dropped; the estimate
    is the one the updated engine reports; and an update that follows
    another submits an empty graph, no value and no removal. *)
Theorem update_submits_pending (v1 v2 : Values) o :
  let o1 := update (initValues v2 (initValues v1 o)) in
  isam_ o1 = isam_update (isam_ o) (inc_graph_ o) v2 (removed_factor_index_ o) /\
  opt_values_ o1 = isam_calculateEstimate (isam_ o1) /\
  isam_ (update o1) = isam_update (isam_ o1) [] ∅ [] /\
  goal_conf_factor_idx_ (update o1) = goal_conf_factor_idx_ o /\
  goal_vel_factor_idx_ (update o1) = goal_vel_factor_idx_ o.
Proof.
  cbv zeta. rewrite !update_effect. cbv zeta. repeat split.
Qed.

Lemma call_setting (c : Call) o :
  setting_ (call c o) = setting_ o /\ arm_ (call c o) = arm_ o /\
  sdf_ (call c o) = sdf_ o.
Proof.
  destruct c as [sc sv gc gv|v| |gc gv|i cf vf]; cbn [call].
  - destruct (initFactorGraph_frame sc sv gc gv o) as (-> & -> & -> & _).
    repeat split.
  - repeat split.
  - rewrite update_effect. repeat split.
  - rewrite changeGoalConfigAndVel_effect. repeat split.
  - rewrite fixConfigAndVel_effect. repeat split.
Qed.

Lemma latest_goal_app (cs1 cs2 : list Call) (g : Pose * Velocity) :
  latest_goal (cs1 ++ cs2) g = latest_goal cs2 (latest_goal cs1 g).
Proof.
  revert g. induction cs1 as [|c cs1 IH]; intros g; [reflexivity|].
  destruct c; simpl; apply IH.
Qed.

End Reconfiguration.

(** * Goal changes against the store of slots *)

Section Tracking.

Context {D : Domain}.

Implicit Types o : ISAM2TrajOptimizer D slot_store_solver.

Lemma blank_lookup_ne (rs : list N) (sl : list (option Factor)) (j : nat) :
  Forall (fun r => N.to_nat r <> j) rs ->
  foldl (fun sl i => <[N.to_nat i := None]> sl) sl rs !! j = sl !! j.
Proof.
  intros H. revert sl. induction H as [|r rs Hr _ IH]; intros sl; [reflexivity|].
  cbn [foldl]. rewrite IH. apply list_lookup_insert_ne. exact Hr.
Qed.

Lemma size_fmap {A B : Type} (f : A -> B) (l : list A) :
  SizeT.size (f <$> l) = SizeT.size l.
Proof. unfold SizeT.size. rewrite length_fmap. reflexivity. Qed.

Lemma store_size_slots o :
  store_size_after_update o = SizeT.size (slots_with_pending o).
Proof.
  unfold store_size_after_update, slots_with_pending. simpl.
  unfold SizeT.size. rewrite length_app, length_fmap. lia.
Qed.

Lemma tracks_goal_call (c : Call) o (g : Pose * Velocity) :
  is_build c = false ->
  store_size_after_update (call c o) <= SizeT.modulus ->
  tracks_goal o g -> tracks_goal (call c o) (latest_goal [c] g).
Proof.
  intros Hb Hfit (Hc & Hv & Hr). unfold tracks_goal.
  pose proof (lookup_lt_Some _ _ _ Hc) as Hlc.
  pose proof (lookup_lt_Some _ _ _ Hv) as Hlv.
  destruct c as [sc sv gc gv|v| |gc gv|i cf vf]; cbn [call latest_goal] in *;
    try discriminate.
  - exact (conj Hc (conj Hv Hr)).
  - rewrite update_effect. cbv zeta. unfold slots_with_pending in *.
    cbn [setting_ isam_ inc_graph_ removed_factor_index_
         goal_conf_factor_idx_ goal_vel_factor_idx_].
    cbn [isam_update slot_store_solver slot_store_update slots].
    rewrite fmap_nil, app_nil_r.
    rewrite !blank_lookup_ne.
    + split; [exact Hc|]. split; [exact Hv|constructor].
    + eapply Forall_impl; [exact Hr|]. cbv beta. intros. lia.
    + eapply Forall_impl; [exact Hr|]. cbv beta. intros. lia.
  - rewrite store_size_slots in Hfit. revert Hfit.
    rewrite changeGoalConfigAndVel_effect. cbv zeta. unfold slots_with_pending in *.
    cbn [setting_ isam_ inc_graph_ removed_factor_index_
         goal_conf_factor_idx_ goal_vel_factor_idx_ fst snd].
    change (isam_factors_size (isam_ o)) with (SizeT.size (slots (isam_ o))).
    rewrite fmap_app, app_assoc. autorewrite with size_t.
    rewrite !size_fmap. autorewrite with size_t. intros Hfit.
    rewrite !SizeTFacts.sub_add_1 by (autorewrite with size_t; lia).
    autorewrite with size_t.
    unfold SizeT.size in *. rewrite length_app, length_fmap in *.
    split; [|split].
    + rewrite lookup_app_r by (rewrite length_app, length_fmap; lia).
      replace (N.to_nat (N.of_nat (length (slots (isam_ o))) +
                         (N.of_nat (length (inc_graph_ o)) + (1 + 0)) - 1)
               - length (slots (isam_ o) ++ (Some <$> inc_graph_ o)))%nat
        with 0%nat by (rewrite length_app, length_fmap; lia).
      reflexivity.
    + rewrite lookup_app_r by (rewrite length_app, length_fmap; lia).
      replace (N.to_nat (N.of_nat (length (slots (isam_ o))) +
                         (N.of_nat (length (inc_graph_ o)) + (1 + (1 + 0))) - 1)
               - length (slots (isam_ o) ++ (Some <$> inc_graph_ o)))%nat
        with 1%nat by (rewrite length_app, length_fmap; lia).
      reflexivity.
    + apply Forall_app. split.
      * eapply Forall_impl; [exact Hr|]. cbv beta. intros. lia.
      * repeat first [apply List.Forall_nil | apply List.Forall_cons]; lia.
  - rewrite fixConfigAndVel_effect. unfold slots_with_pending in *.
    cbn [set_inc_graph setting_ isam_ inc_graph_ removed_factor_index_
         goal_conf_factor_idx_ goal_vel_factor_idx_].
    rewrite fmap_app, app_assoc.
    rewrite (lookup_app_l _ _ _ Hlc), (lookup_app_l _ _ _ Hlv).
    exact (conj Hc (conj Hv Hr)).
Qed.

Lemma tracks_goal_calls arm sdf st sc sv gc gv (cs : list Call) :
  1 <= total_step st ->
  Forall (fun c => is_build c = false) cs ->
  let o := calls cs (initFactorGraph sc sv gc gv
                       (ISAM2TrajOptimizer_new arm sdf st)) in
  store_size_after_update o <= SizeT.modulus ->
  tracks_goal o (latest_goal cs (gc, gv)) /\ setting_ o = st.
Proof.
  intros HN. cbv zeta. induction cs as [|c cs IH] using rev_ind; intros Hb Hfit.
  - unfold calls in *. cbn [foldl latest_goal] in *.
    set (o0 := ISAM2TrajOptimizer_new arm sdf st) in *.
    destruct (initFactorGraph_frame sc sv gc gv o0) as (Hs & _ & _ & Hi & _ & _ & Hr).
    split; [|exact Hs].
    assert (Hfit' : SizeT.size (inc_graph_ (initFactorGraph sc sv gc gv o0))
                    <= SizeT.modulus).
    { unfold store_size_after_update in Hfit. lia. }
    destruct (initFactorGraph_positions_lookup sc sv gc gv o0 HN Hfit')
      as (_ & _ & Hc & Hv).
    unfold tracks_goal, slots_with_pending. rewrite Hs, Hi, Hr.
    cbn [o0 ISAM2TrajOptimizer_new isam_ setting_ removed_factor_index_
         isam_new slot_store_solver slots app fst snd].
    rewrite !list_lookup_fmap.
    cbn [o0 ISAM2TrajOptimizer_new setting_] in Hc, Hv. rewrite Hc, Hv.
    repeat split. constructor.
  - apply Forall_app in Hb as (Hb & Hc). apply Forall_cons in Hc as (Hc & _).
    rewrite calls_snoc in *. rewrite latest_goal_app.
    destruct (call_invariant c _ Hfit) as (Hle & _).
    destruct IH as (IH & Hs); [exact Hb | lia |].
    split.
    + apply tracks_goal_call; assumption.
    + destruct (call_setting c (calls cs (initFactorGraph sc sv gc gv
                  (ISAM2TrajOptimizer_new arm sdf st)))) as (-> & _).
      exact Hs.
Qed.

(** X12.  After a build with N >= 1 on a fresh optimizer, along any sequence of
    goal changes, updates, pinned states and [initValues], run against a
    store that appends and blanks slots: the two cached indices name the
    slots that hold the priors of the latest goal (the one of the last goal
    change, or of the build), and every pending removal is below both, so
    that no update blanks them. *)
Theorem cached_indices_track_goal arm sdf st sc sv gc gv (cs : list Call) :
  1 <= total_step st ->
  Forall (fun c => is_build c = false) cs ->
  let o := calls cs (initFactorGraph sc sv gc gv
                       (ISAM2TrajOptimizer_new arm sdf st)) in
  let g := latest_goal cs (gc, gv) in
  store_size_after_update o <= SizeT.modulus ->
  slots_with_pending o !! N.to_nat (goal_conf_factor_idx_ o) =
    Some (Some (PriorFactorPose (Symbol "x" (total_step st)) (fst g)
                  (conf_prior_model st))) /\
  slots_with_pending o !! N.to_nat (goal_vel_factor_idx_ o) =
    Some (Some (PriorFactorVelocity (Symbol "v" (total_step st)) (snd g)
                  (vel_prior_model st))) /\
  Forall (fun r => r < goal_conf_factor_idx_ o /\ r < goal_vel_factor_idx_ o)
         (removed_factor_index_ o).
Proof.
  intros HN Hb o g Hfit.
  destruct (tracks_goal_calls arm sdf st sc sv gc gv cs HN Hb Hfit)
    as (Ht & Hs).
  fold o in Ht, Hs. unfold tracks_goal in Ht. rewrite Hs in Ht. exact Ht.
Qed.

Lemma blank_length (rs : list N) (sl : list (option Factor)) :
  length (foldl (fun sl i => <[N.to_nat i := None]> sl) sl rs) = length sl.
Proof.
  revert sl. induction rs as [|r rs IH]; intros sl; [reflexivity|].
  cbn [foldl]. rewrite IH, length_insert. reflexivity.
Qed.

Lemma blank_keeps_blank (rs : list N) (sl : list (option Factor)) (j : nat) :
  sl !! j = Some None ->
  foldl (fun sl i => <[N.to_nat i := None]> sl) sl rs !! j = Some None.
Proof.
  revert sl. induction rs as [|r rs IH]; intros sl H; [exact H|].
  cbn [foldl]. apply IH.
  destruct (Nat.eq_dec (N.to_nat r) j) as [-> | Hne].
  - apply list_lookup_insert_eq. eapply lookup_lt_Some, H.
  - rewrite list_lookup_insert_ne by exact Hne. exact H.
Qed.

Lemma blank_lookup_in (rs : list N) (sl : list (option Factor)) (r : N) :
  r ∈ rs -> (N.to_nat r < length sl)%nat ->
  foldl (fun sl i => <[N.to_nat i := None]> sl) sl rs !! N.to_nat r = Some None.
Proof.
  revert sl. induction rs as [|r' rs IH]; intros sl Hin Hlt.
  - inversion Hin.
  - cbn [foldl]. apply elem_of_cons in Hin as [-> | Hin].
    + apply blank_keeps_blank, list_lookup_insert_eq, Hlt.
    + apply IH; [exact Hin | rewrite length_insert; exact Hlt].
Qed.

(** X13.  A goal change followed by an update, anywhere after the build (N >= 1,
    fresh optimizer, store that appends and blanks slots): the two slots
    the cache named before are blank in the store, the two slots it names
    now hold the priors of the new goal, and the store is longer by the
    factors that were pending plus two. *)
Theorem goal_change_update_replaces_priors arm sdf st sc sv gc gv
    (cs : list Call) gc' gv' :
  1 <= total_step st ->
  Forall (fun c => is_build c = false) cs ->
  let o := calls cs (initFactorGraph sc sv gc gv
                       (ISAM2TrajOptimizer_new arm sdf st)) in
  let o' := update (changeGoalConfigAndVel gc' gv' o) in
  store_size_after_update o + 2 <= SizeT.modulus ->
  slots (isam_ o') !! N.to_nat (goal_conf_factor_idx_ o) = Some None /\
  slots (isam_ o') !! N.to_nat (goal_vel_factor_idx_ o) = Some None /\
  slots (isam_ o') !! N.to_nat (goal_conf_factor_idx_ o') =
    Some (Some (PriorFactorPose (Symbol "x" (total_step st)) gc'
                  (conf_prior_model st))) /\
  slots (isam_ o') !! N.to_nat (goal_vel_factor_idx_ o') =
    Some (Some (PriorFactorVelocity (Symbol "v" (total_step st)) gv'
                  (vel_prior_model st))) /\
  length (slots (isam_ o')) = (length (slots_with_pending o) + 2)%nat.
Proof.
  intros HN Hb o o' Hfit.
  assert (Hfit0 : store_size_after_update o <= SizeT.modulus) by lia.
  destruct (tracks_goal_calls arm sdf st sc sv gc gv cs HN Hb Hfit0)
    as ((Hc & Hv & _) & _).
  fold o in Hc, Hv.
  pose proof (lookup_lt_Some _ _ _ Hc) as Hlc.
  pose proof (lookup_lt_Some _ _ _ Hv) as Hlv.
  assert (Ho' : o' = calls (cs ++ [CallChangeGoalConfigAndVel gc' gv'; CallUpdate])
                       (initFactorGraph sc sv gc gv
                          (ISAM2TrajOptimizer_new arm sdf st))).
  { unfold calls. rewrite foldl_app. reflexivity. }
  assert (Hslots : slots (isam_ o') =
            foldl (fun sl i => <[N.to_nat i := None]> sl)
              (slots_with_pending o ++
               [Some (PriorFactorPose (Symbol "x" (total_step (setting_ o))) gc'
                        (conf_prior_model (setting_ o)));
                Some (PriorFactorVelocity (Symbol "v" (total_step (setting_ o))) gv'
                        (vel_prior_model (setting_ o)))])
              (removed_factor_index_ o ++
               [goal_conf_factor_idx_ o; goal_vel_factor_idx_ o])).
  { subst o'. rewrite update_effect, changeGoalConfigAndVel_effect. cbv zeta.
    unfold slots_with_pending.
    cbn [isam_ inc_graph_ init_values_ removed_factor_index_].
    cbn [isam_update slot_store_solver slot_store_update slots].
    rewrite fmap_app, app_assoc. reflexivity. }
  assert (Hfit' : store_size_after_update o' <= SizeT.modulus).
  { rewrite store_size_slots. unfold slots_with_pending, SizeT.size.
    rewrite Hslots. subst o'. rewrite update_effect. cbv zeta. cbn [inc_graph_].
    rewrite fmap_nil, app_nil_r, blank_length, length_app. simpl.
    rewrite store_size_slots in Hfit. unfold SizeT.size in Hfit. lia. }
  assert (Hb' : Forall (fun c => is_build c = false)
                  (cs ++ [CallChangeGoalConfigAndVel gc' gv'; CallUpdate])).
  { apply Forall_app. split; [exact Hb|]. repeat constructor. }
  rewrite Ho' in Hfit'.
  destruct (tracks_goal_calls arm sdf st sc sv gc gv _ HN Hb' Hfit')
    as ((Hc' & Hv' & _) & Hs').
  rewrite <- Ho' in Hc', Hv', Hs'. rewrite Hs' in Hc', Hv'.
  rewrite latest_goal_app in Hc', Hv'. cbn [latest_goal fst snd] in Hc', Hv'.
  unfold slots_with_pending in Hc', Hv'.
  assert (Hnil : inc_graph_ o' = []) by (subst o'; rewrite update_effect; reflexivity).
  rewrite Hnil, fmap_nil, app_nil_r in Hc', Hv'.
  split; [|split; [|split; [|split]]].
  - rewrite Hslots. apply blank_lookup_in.
    + apply elem_of_app. right. left.
    + rewrite length_app. lia.
  - rewrite Hslots. apply blank_lookup_in.
    + apply elem_of_app. right. right. left.
    + rewrite length_app. lia.
  - exact Hc'.
  - exact Hv'.
  - rewrite Hslots, blank_length, length_app. reflexivity.
Qed.

End Tracking.

(** * The scenario, evaluated *)

Section ScenarioFacts.

Import Scenario.

Example built_cache :
  goal_conf_factor_idx_ built = 15 /\ goal_vel_factor_idx_ built = 16 /\
  SizeT.size (inc_graph_ built) = 20.
Proof. vm_compute. repeat split. Qed.

(** Right after the build nothing is committed: the indices a goal change
    queues for removal stand for factors of the pending batch itself. *)
Example regoaled_removes_pending :
  removed_factor_index_ regoaled = [15; 16] /\
  isam_factors_size (isam_ regoaled) = 0 /\
  pending_at regoaled 15 = Some (PriorFactorPose (Symbol "x" 5) (10, 0)%Z tt) /\
  pending_at regoaled 16 = Some (PriorFactorVelocity (Symbol "v" 5) (0, 0)%Z tt).
Proof. vm_compute. repeat split. Qed.

(** The store of slots appends the batch before it blanks the removed
    slots, so that such a removal takes out the factor just appended. *)
Example regoaled_update_blanks_slots :
  let s := slots (isam_ (update regoaled)) in
  length s = 22%nat /\ s !! 15%nat = Some None /\ s !! 16%nat = Some None /\
  s !! 20%nat = Some (Some (PriorFactorPose (Symbol "x" 5) (12, 0)%Z tt)).
Proof. vm_compute. repeat split. Qed.

(** The goal moved right after the build: 0 committed factors, 20 pending,
    so the new goal priors get the indices 20 and 21. *)
Lemma changeGoal_caches_committed_plus_position_witness :
  goal_conf_factor_idx_ regoaled = 0 + 20 /\
  inc_graph_ regoaled !! 20%nat = Some (PriorFactorPose (Symbol "x" 5) (12, 0)%Z tt) /\
  goal_vel_factor_idx_ regoaled = 0 + 21 /\
  inc_graph_ regoaled !! 21%nat = Some (PriorFactorVelocity (Symbol "v" 5) (0, 0)%Z tt).
Proof.
  destruct (changeGoal_caches_committed_plus_position (D := point_robot) (12, 0)%Z (0, 0)%Z built)
    as (_ & _ & _ & _ & Hc & Hpc & Hv & Hpv).
  - vm_compute. discriminate.
  - exact (conj Hc (conj Hpc (conj Hv Hpv))).
Defined.

(** Step 3 of 0..5 pinned after the build. *)
Lemma fixConfigAndVel_appends_two_priors_witness :
  inc_graph_ (pinned_at 3) =
    inc_graph_ built ++
    [PriorFactorPose (Symbol "x" 3) (3, 1)%Z tt;
     PriorFactorVelocity (Symbol "v" 3) (0, 0)%Z tt] /\
  removed_factor_index_ (pinned_at 3) = removed_factor_index_ built.
Proof.
  destruct (fixConfigAndVel_appends_two_priors (D := point_robot) 3 (3, 1)%Z (0, 0)%Z built)
    as (Hg & Hr & _).
  - vm_compute. discriminate.
  - exact (conj Hg Hr).
Defined.

(** Step 6 does not exist when total_step is 5; pinning it is not refused
    and changes the optimizer. *)
Lemma fixConfigAndVel_out_of_range_mutates :
  total_step (setting_ built) < 6 /\ pinned_at 6 <> built.
Proof.
  split; [reflexivity|].
  intros H. apply (f_equal (fun o => length (inc_graph_ o))) in H.
  vm_compute in H. discriminate.
Qed.

(** What pinning the step 6 that does not exist appends. *)
Lemma fixConfigAndVel_out_of_range_appends_witness :
  inc_graph_ (pinned_at 6) =
    inc_graph_ built ++
    [PriorFactorPose (Symbol "x" 6) (3, 1)%Z tt;
     PriorFactorVelocity (Symbol "v" 6) (0, 0)%Z tt] /\
  goal_conf_factor_idx_ (pinned_at 6) = goal_conf_factor_idx_ built.
Proof.
  destruct (fixConfigAndVel_out_of_range_appends (D := point_robot) 6 (3, 1)%Z (0, 0)%Z built)
    as (Hg & _ & Hc & _).
  - vm_compute. reflexivity.
  - exact (conj Hg Hc).
Defined.

(** With a total step count of zero the build still appends factors. *)
Lemma initFactorGraph_zero_steps_builds :
  total_step (setting_ fresh0) = 0 /\ inc_graph_ built0 <> inc_graph_ fresh0.
Proof.
  split; [reflexivity|].
  intros H. apply (f_equal length) in H. vm_compute in H. discriminate.
Qed.

(** The three factors of the build with a total step count of zero. *)
Lemma initFactorGraph_zero_steps_witness :
  inc_graph_ built0 =
    inc_graph_ fresh0 ++
    [PriorFactorPose (Symbol "x" 0) (0, 0)%Z tt;
     PriorFactorVelocity (Symbol "v" 0) (0, 0)%Z tt;
     OBS_FACTOR (Symbol "x" 0) tt tt (dbl_const 1) (dbl_const 2)] /\
  goal_conf_factor_idx_ built0 = goal_conf_factor_idx_ fresh0.
Proof.
  destruct (initFactorGraph_zero_steps (D := point_robot) (0, 0)%Z (0, 0)%Z (10, 0)%Z (0, 0)%Z fresh0)
    as (Hg & Hc & _).
  - reflexivity.
  - exact (conj Hg Hc).
Defined.

(** Build, then a goal change, no update yet: a pending removal names no
    committed factor, as nothing is committed. *)
Lemma removals_not_committed_after_build :
  ~ removals_committed (calls [build_call; regoal_call] fresh).
Proof.
  unfold removals_committed. intros H. vm_compute in H.
  inversion H as [|i l Hlt _]. discriminate Hlt.
Qed.

(** Build, goal change, update, two more goal changes. *)
Lemma removals_name_store_slots_witness :
  removals_in_store
    (calls [build_call; regoal_call; CallUpdate; regoal_call; regoal_call] fresh).
Proof.
  apply (removals_name_store_slots (D := point_robot)
           [build_call; regoal_call; CallUpdate; regoal_call; regoal_call]
           tt tt (setting_of 5 1)).
  vm_compute. discriminate.
Defined.

(** The census of the build for N = 5 and one interpolated check: 20
    factors. *)
Lemma initFactorGraph_census_witness :
  exists emitted : NonlinearFactorGraph,
    inc_graph_ built = inc_graph_ fresh ++ emitted /\
    count_factors is_obstacle emitted = 5 + 1 /\
    count_factors is_smoothness emitted = 5 /\
    count_factors is_interpolated emitted = 5 * 1 /\
    SizeT.size emitted = 2 + 2 + (5 + 1) + 5 + 5 * 1.
Proof.
  destruct (initFactorGraph_census (D := point_robot) (0, 0)%Z (0, 0)%Z (10, 0)%Z (0, 0)%Z fresh)
    as (emitted & Hg & _ & Ho & Hs & Hi & Hn).
  - vm_compute. discriminate.
  - exists emitted. exact (conj Hg (conj Ho (conj Hs (conj Hi Hn)))).
Defined.

(** The goal priors of that build sit at positions 15 and 16. *)
Lemma initFactorGraph_caches_goal_positions_witness :
  exists before after : NonlinearFactorGraph,
    inc_graph_ built =
      before ++
      [PriorFactorPose (Symbol "x" 5) (10, 0)%Z tt;
       PriorFactorVelocity (Symbol "v" 5) (0, 0)%Z tt] ++ after /\
    goal_conf_factor_idx_ built = SizeT.size before /\
    goal_vel_factor_idx_ built = SizeT.size before + 1 /\
    SizeT.size before = 3 + (5 - 1) * (1 + 2).
Proof.
  destruct (initFactorGraph_caches_goal_positions (D := point_robot) tt tt (setting_of 5 1)
              (0, 0)%Z (0, 0)%Z (10, 0)%Z (0, 0)%Z)
    as (before & after & Hg & _ & Hc & Hv & _ & _ & Hn).
  - vm_compute. discriminate.
  - vm_compute. discriminate.
  - exists before, after. exact (conj Hg (conj Hc (conj Hv Hn))).
Defined.

End ScenarioFacts.

(** * The scenario, continued *)

Section ScenarioMore.

Import Scenario.

(** The velocity key of the last step is a variable of the built graph. *)
Lemma initFactorGraph_keys_witness :
  exists emitted : NonlinearFactorGraph,
    inc_graph_ built = inc_graph_ fresh ++ emitted /\
    exists f, f ∈ emitted /\ Symbol "v" 5 ∈ factor_keys f.
Proof.
  destruct (initFactorGraph_keys (D := point_robot)
              (0, 0)%Z (0, 0)%Z (10, 0)%Z (0, 0)%Z fresh) as (emitted & Hg & Hk).
  - vm_compute. discriminate.
  - exists emitted. split; [exact Hg|]. apply (proj2 (Hk (Symbol "v" 5))).
    split; [right; reflexivity | vm_compute; discriminate].
Defined.

(** Five GP factors for five steps. *)
Lemma initFactorGraph_smoothness_factors_witness :
  exists emitted : NonlinearFactorGraph,
    inc_graph_ built = inc_graph_ fresh ++ emitted /\
    length (List.filter is_smoothness emitted) = 5%nat.
Proof.
  destruct (initFactorGraph_smoothness_factors (D := point_robot)
              (0, 0)%Z (0, 0)%Z (10, 0)%Z (0, 0)%Z fresh) as (emitted & Hg & Hf).
  - vm_compute. discriminate.
  - exists emitted. split; [exact Hg|]. rewrite Hf. reflexivity.
Defined.

(** Five interpolated factors, one between every two steps. *)
Lemma initFactorGraph_interpolated_factors_witness :
  exists emitted : NonlinearFactorGraph,
    inc_graph_ built = inc_graph_ fresh ++ emitted /\
    length (List.filter is_interpolated emitted) = 5%nat.
Proof.
  destruct (initFactorGraph_interpolated_factors (D := point_robot)
              (0, 0)%Z (0, 0)%Z (10, 0)%Z (0, 0)%Z fresh) as (emitted & Hg & Hf).
  - vm_compute. discriminate.
  - exists emitted. split; [exact Hg|]. rewrite Hf. reflexivity.
Defined.

(** A second build after an update: 20 factors are committed, and the
    cached goal pose index is 15 again. *)
Lemma initFactorGraph_caches_pending_positions_witness :
  goal_conf_factor_idx_
    (initFactorGraph (D := point_robot) (0, 0)%Z (0, 0)%Z (12, 0)%Z (0, 0)%Z
       (update built)) =
  SizeT.size (inc_graph_ (update built)) + 3 + (5 - 1) * (1 + 2).
Proof.
  destruct (initFactorGraph_caches_pending_positions (D := point_robot)
              (0, 0)%Z (0, 0)%Z (12, 0)%Z (0, 0)%Z (update built))
    as (Hc & _).
  - vm_compute. discriminate.
  - vm_compute. discriminate.
  - exact Hc.
Defined.

Lemma zero_steps_goal_change_targets_start_prior_witness :
  removed_factor_index_
    (changeGoalConfigAndVel (D := point_robot) (12, 0)%Z (0, 0)%Z built0) = [0; 0].
Proof.
  destruct (zero_steps_goal_change_targets_start_prior (D := point_robot)
              tt tt (setting_of 0 1) (0, 0)%Z (0, 0)%Z (10, 0)%Z (0, 0)%Z
              (12, 0)%Z (0, 0)%Z) as (Hr & _).
  - reflexivity.
  - exact Hr.
Defined.

Lemma goal_change_before_build_witness :
  removed_factor_index_
    (changeGoalConfigAndVel (D := point_robot) (12, 0)%Z (0, 0)%Z fresh) = [0; 0] /\
  pending_at
    (changeGoalConfigAndVel (D := point_robot) (12, 0)%Z (0, 0)%Z fresh) 0 =
    Some (PriorFactorPose (Symbol "x" 5) (12, 0)%Z tt).
Proof.
  destruct (goal_change_before_build (D := point_robot) tt tt (setting_of 5 1)
              (12, 0)%Z (0, 0)%Z) as (Hr & _ & _ & _ & Hp).
  exact (conj Hr Hp).
Defined.

(** Two goal changes right after the build: the second queues 20 and 21. *)
Lemma goal_change_twice_witness :
  removed_factor_index_
    (changeGoalConfigAndVel (D := point_robot) (14, 1)%Z (0, 1)%Z regoaled) =
  removed_factor_index_ built ++
  [goal_conf_factor_idx_ built; goal_vel_factor_idx_ built;
   store_size_after_update built; store_size_after_update built + 1].
Proof.
  destruct (goal_change_twice (D := point_robot)
              (12, 0)%Z (0, 0)%Z (14, 1)%Z (0, 1)%Z built) as (Hr & _).
  - vm_compute. discriminate.
  - exact Hr.
Defined.

Lemma update_commits_cached_indices_witness :
  goal_conf_factor_idx_ (update (calls [build_call; regoal_call] fresh)) <
  isam_factors_size (isam_ (update (calls [build_call; regoal_call] fresh))).
Proof.
  destruct (update_commits_cached_indices (D := point_robot)
              [build_call; regoal_call] tt tt (setting_of 5 1)) as (Hc & _).
  - split; vm_compute; discriminate.
  - exact Hc.
Defined.

(** A goal change, an update, the last step pinned, a second goal change:
    the cached pose index names the prior of the second goal. *)
Lemma cached_indices_track_goal_witness :
  let o := calls [regoal_call; CallUpdate; pin_call; regoal2_call] built in
  slots_with_pending o !! N.to_nat (goal_conf_factor_idx_ o) =
    Some (Some (PriorFactorPose (Symbol "x" 5) (14, 1)%Z tt)).
Proof.
  destruct (cached_indices_track_goal (D := point_robot) tt tt (setting_of 5 1)
              (0, 0)%Z (0, 0)%Z (10, 0)%Z (0, 0)%Z
              [regoal_call; CallUpdate; pin_call; regoal2_call]) as (Hc & _).
  - vm_compute. discriminate.
  - repeat constructor.
  - vm_compute. discriminate.
  - exact Hc.
Defined.

(** A goal change and an update, then a second goal change and an update:
    the slots 22 and 23 of the first change are blank afterwards. *)
Lemma goal_change_update_replaces_priors_witness :
  let o := calls [regoal_call; CallUpdate] built in
  let o' := update (changeGoalConfigAndVel (D := point_robot)
                      (14, 1)%Z (0, 1)%Z o) in
  slots (isam_ o') !! N.to_nat (goal_conf_factor_idx_ o) = Some None /\
  slots (isam_ o') !! N.to_nat (goal_conf_factor_idx_ o') =
    Some (Some (PriorFactorPose (Symbol "x" 5) (14, 1)%Z tt)).
Proof.
  destruct (goal_change_update_replaces_priors (D := point_robot)
              tt tt (setting_of 5 1) (0, 0)%Z (0, 0)%Z (10, 0)%Z (0, 0)%Z
              [regoal_call; CallUpdate] (14, 1)%Z (0, 1)%Z)
    as (Hold & _ & Hnew & _).
  - vm_compute. discriminate.
  - repeat constructor.
  - vm_compute. discriminate.
  - exact (conj Hold Hnew).
Defined.

(** For N = 5 and one interpolated check the build appends 20 factors to
    the empty pending graph of a fresh optimizer, not the 17 of the total
    the spec states. *)
Lemma initFactorGraph_total_differs_from_spec_total :
  1 <= total_step (setting_ fresh) /\
  inc_graph_ fresh = [] /\
  SizeT.size (inc_graph_ built) <>
    spec_stated_total (total_step (setting_ fresh))
                      (obs_check_inter (setting_ fresh)).
Proof.
  split; [vm_compute; discriminate|]. split; [reflexivity|].
  vm_compute. discriminate.
Qed.

End ScenarioMore.
